(** * qiskit-aer: random-testing scripts and noise-model tests

    A shallow embedding of

    - [random-testing/create_circuit.py] and
      [random-testing/random_statevector_test.py], the script that builds a
      random circuit and cross-validates the statevector and tensor-network
      methods of the simulator, and
    - [test/terra/noise/test_noise_model.py], the integration tests of the
      noise-model API.

    Python code is embedded in a state-and-exception monad.  Everything the
    scripts call but do not define (the [random] module, the simulator, the
    circuit compiler) is an interface whose calls are recorded in the
    state. *)

From Stdlib Require Import ZArith QArith SpecFloat.
From stdpp Require Import base numbers list list_numbers strings pretty gmap.

Local Open Scope Z_scope.

(** ** Python values *)

(** A Python [float] is an IEEE-754 binary64 number. *)
Module Float.
Definition float : Type := spec_float.
Definition prec : Z := 53.
Definition emax : Z := 1024.

Definition sub : float → float → float := SFsub prec emax.
Definition div : float → float → float := SFdiv prec emax.
Definition abs : float → float := SFabs.
(** [gt a b] is Python's [a > b], [le a b] is [a <= b]; both are false as
    soon as an operand is NaN. *)
Definition gt (a b : float) : bool := SFltb b a.
Definition le (a b : float) : bool := SFleb a b.

Definition of_Z (z : Z) : float := binary_normalize prec emax z 0 false.
(** The literal [0] or [0.0] converted to float. *)
Definition zero : float := S754_zero false.
(** A decimal literal [n / 10^k] whose numerator and denominator are exact
    floats is their correctly rounded quotient. *)
Definition of_decimal (n : Z) (k : Z) : float := div (of_Z n) (of_Z (10 ^ k)).

Definition is_nan (x : float) : bool :=
  match x with S754_nan => true | _ => false end.

(** [numpy.pi], the binary64 number nearest to pi. *)
Definition pi : float := S754_finite false 7074237752028440 (-51).
End Float.
Export Float(float).

(** The exceptions the scripts can raise. [SystemError] stands for the use of
    a reference to an object that was never allocated, which no Python
    program can produce. *)
Inductive exn :=
  | IndexError | ValueError | KeyError | TypeError | UnboundLocalError
  | SystemError.

Global Instance exn_eq_dec : EqDecision exn.
Proof. solve_decision. Defined.

Inductive outcome (A : Type) :=
  | Ok (a : A)
  | Raise (e : exn).
Global Arguments Ok {A} a.
Global Arguments Raise {A} e.

(** ** The monad of Python computations over a world [W] *)

Definition Py (W A : Type) : Type := W → outcome A * W.

Global Instance py_ret {W} : MRet (Py W) := λ A a w, (Ok a, w).
Global Instance py_bind {W} : MBind (Py W) := λ A B k m w,
  match m w with
  | (Ok a, w') => k a w'
  | (Raise e, w') => (Raise e, w')
  end.

Definition raise {W A} (e : exn) : Py W A := λ w, (Raise e, w).
Definition gets {W A} (f : W → A) : Py W A := λ w, (Ok (f w), w).
Definition modify {W} (f : W → W) : Py W unit := λ w, (Ok tt, f w).
Definition lift_option {W A} (e : exn) (o : option A) : Py W A :=
  match o with Some a => mret a | None => raise e end.

(** [for i in range(stop): body], threading the local variables [x] that
    the body assigns. *)
Fixpoint for_range_from {W X} (i : Z) (n : nat) (body : Z → X → Py W X)
    (x : X) : Py W X :=
  match n with
  | O => mret x
  | S n => x' ← body i x; for_range_from (i + 1) n body x'
  end.

Definition for_range {W X} (stop : Z) (body : Z → X → Py W X) (x : X) :
    Py W X :=
  for_range_from 0 (Z.to_nat stop) body x.

(** [[f(x) for x in l]], for an [f] with effects. *)
Fixpoint py_map {W A B} (f : A → Py W B) (l : list A) : Py W (list B) :=
  match l with
  | [] => mret []
  | a :: l => b ← f a; bs ← py_map f l; mret (b :: bs)
  end.

(** [wp m Q w]: running [m] from [w] ends in an outcome and a world that
    satisfy [Q]. *)
Definition wp {W A} (m : Py W A) (Q : outcome A → W → Prop) (w : W) : Prop :=
  Q (m w).1 (m w).2.

(** ** Sequences: [len(seq)] and [seq[i]] *)

Class PySequence (T A : Type) := {
  py_len : T → Z;
  py_getitem : T → Z → option A;
}.

(** Indexing with Python's negative indices. *)
Definition py_index {A} (len : Z) (get : nat → option A) (i : Z) : option A :=
  if bool_decide (0 ≤ i) then
    if bool_decide (i < len) then get (Z.to_nat i) else None
  else if bool_decide (- len ≤ i) then get (Z.to_nat (len + i)) else None.

Global Instance list_sequence {A} : PySequence (list A) A := {|
  py_len l := Z.of_nat (length l);
  py_getitem l i := py_index (Z.of_nat (length l)) (λ n, l !! n) i;
|}.

(** [range(stop)]: the integers [0 .. stop - 1], without building the list. *)
Record range := Range { range_stop : Z }.

Global Instance range_sequence : PySequence range Z := {|
  py_len r := Z.max 0 (range_stop r);
  py_getitem r i :=
    py_index (Z.max 0 (range_stop r)) (λ n, Some (Z.of_nat n)) i;
|}.

(** [list(range(stop))] *)
Definition list_of_range (r : range) : list Z := seqZ 0 (range_stop r).

(** [l.remove(x)]: drops the first occurrence, [ValueError] if there is none. *)
Fixpoint list_remove (x : Z) (l : list Z) : option (list Z) :=
  match l with
  | [] => None
  | y :: l' => if bool_decide (y = x) then Some l' else cons y <$> list_remove x l'
  end.

(** [x in l] for strings *)
Definition str_in (x : string) (l : list string) : bool :=
  existsb (String.eqb x) l.

(** ** The [random] module *)

(** The generator behind [random.seed], [random.choice] and
    [random.uniform].  [rng_randbelow n] is [_randbelow(n)], an integer in
    [range(n)]; [rng_uniform a b] is [uniform(a, b)], documented to return
    [N] with [a <= N <= b] when [a <= b]. *)
Class RandomGen := {
  rng_state : Type;
  rng_seed : Z → rng_state;
  rng_randbelow : Z → rng_state → Z * rng_state;
  rng_uniform : float → float → rng_state → float * rng_state;
  rng_randbelow_range n s : 0 < n → 0 ≤ (rng_randbelow n s).1 < n;
  rng_uniform_range a b s :
    Float.le a b = true →
    Float.le a (rng_uniform a b s).1 = true ∧
    Float.le (rng_uniform a b s).1 b = true;
}.

(** ** Circuits (the part of the qiskit data model the scripts touch) *)

Inductive Register :=
  | QuantumRegister (size : Z)
  | ClassicalRegister (size : Z).

(** [reg[i]], a qubit or a classical bit. *)
Record Bit := mkBit { bit_register : Register; bit_index : Z }.

(** [Gate(name=..., num_qubits=..., params=...)] *)
Record Gate := mkGate {
  gate_name : string;
  gate_num_qubits : Z;
  gate_params : list float;
}.

Inductive Instruction :=
  | GateInstr (g : Gate) (qargs : list Bit)
  | SnapshotInstr (label : string) (snapshot_type : string).

Record QuantumCircuit := mkCircuit {
  qc_name : string;
  qubits : list Bit;
  clbits : list Bit;
  data : list Instruction;
}.

Global Instance Register_eq_dec : EqDecision Register.
Proof. solve_decision. Defined.
Global Instance Bit_eq_dec : EqDecision Bit.
Proof. solve_decision. Defined.

Definition register_bits (r : Register) : list Bit :=
  match r with
  | QuantumRegister n | ClassicalRegister n => mkBit r <$> seqZ 0 n
  end.

(** The circuit after [qc.append(...)] or [qc.snapshot(...)] has run. *)
Definition with_instructions (c : QuantumCircuit) (instrs : list Instruction) :
    QuantumCircuit :=
  mkCircuit (qc_name c) (qubits c) (clbits c) (data c ++ instrs).

(** ** The simulator *)

(** One amplitude of a statevector snapshot, [[re, im]]. *)
Definition amplitude : Type := float * float.

(** [result.results[k].data.snapshots.statevector]: snapshot label to the
    list of statevectors recorded under it. *)
Record ExperimentResult := mkExperimentResult {
  snapshots_statevector : gmap string (list (list amplitude));
}.
Record Result := mkResult { results : list ExperimentResult }.

(** [execute(circuits, QasmSimulator(), backend_options=..., shots=...)
    .result()]; the simulator may keep state of its own. *)
Class Simulator := {
  sim_state : Type;
  sim_execute :
    list QuantumCircuit → gmap string string → Z → sim_state →
    Result * sim_state;
}.

(** References to circuit objects. *)
Definition loc : Type := nat.

(** The calls that cross a function boundary, kept as a history. *)
Inductive Call :=
  | CallCreateCircuit (num_qubits number_of_gates seed : Z) (qc : loc)
  | CallExecute (circuits : list loc) (values : list QuantumCircuit)
      (backend_options : gmap string string) (shots : Z).

Section scripts.
Context `{RandomGen, Simulator}.

(** The state of a run: the global generator of [random], the circuit
    objects, the simulator, what was printed and the call history. *)
Record World := mkWorld {
  w_rng : rng_state;
  w_heap : list QuantumCircuit;
  w_sim : sim_state;
  w_stdout : list string;
  w_calls : list Call;
}.

Definition set_rng (s : rng_state) (w : World) : World :=
  mkWorld s (w_heap w) (w_sim w) (w_stdout w) (w_calls w).
Definition set_heap (h : list QuantumCircuit) (w : World) : World :=
  mkWorld (w_rng w) h (w_sim w) (w_stdout w) (w_calls w).
Definition set_sim (s : sim_state) (w : World) : World :=
  mkWorld (w_rng w) (w_heap w) s (w_stdout w) (w_calls w).
Definition add_stdout (line : string) (w : World) : World :=
  mkWorld (w_rng w) (w_heap w) (w_sim w) (w_stdout w ++ [line]) (w_calls w).
Definition add_call (c : Call) (w : World) : World :=
  mkWorld (w_rng w) (w_heap w) (w_sim w) (w_stdout w) (w_calls w ++ [c]).

Definition print (line : string) : Py World unit := modify (add_stdout line).
Definition log_call (c : Call) : Py World unit := modify (add_call c).

(** *** [random] *)

Definition random_seed (seed : Z) : Py World unit :=
  modify (set_rng (rng_seed seed)).

(** [random.choice(seq)] is [seq[_randbelow(len(seq))]], and [IndexError]
    on an empty sequence. *)
Definition random_choice {T A} `{PySequence T A} (seq : T) : Py World A :=
  λ w,
    if bool_decide (py_len seq = 0) then (Raise IndexError, w)
    else
      let '(i, s) := rng_randbelow (py_len seq) (w_rng w) in
      match py_getitem seq i with
      | Some x => (Ok x, set_rng s w)
      | None => (Raise IndexError, set_rng s w)
      end.

Definition random_uniform (a b : float) : Py World float :=
  λ w, let '(x, s) := rng_uniform a b (w_rng w) in (Ok x, set_rng s w).

(** *** Circuit objects *)

(** [QuantumCircuit(q, c, name=...)] *)
Definition new_circuit (q c : Register) (name : string) : Py World loc :=
  λ w,
    (Ok (length (w_heap w)),
     set_heap (w_heap w ++ [mkCircuit name (register_bits q) (register_bits c) []]) w).

Definition read_circuit (qc : loc) : Py World QuantumCircuit :=
  λ w, match w_heap w !! qc with
       | Some c => (Ok c, w)
       | None => (Raise SystemError, w)
       end.

Definition add_instruction (qc : loc) (i : Instruction) : Py World unit :=
  c ← read_circuit qc;
  modify (λ w, set_heap (<[qc := with_instructions c [i]]> (w_heap w)) w).

(** [qc.qubits[i]] *)
Definition circuit_qubit (qc : loc) (i : Z) : Py World Bit :=
  c ← read_circuit qc;
  lift_option IndexError (py_getitem (qubits c) i).

(** [qc.append(gate, qargs)] *)
Definition circuit_append (qc : loc) (g : Gate) (qargs : list Bit) :
    Py World unit :=
  add_instruction qc (GateInstr g qargs).

(** [qc.snapshot(label, snapshot_type=...)] *)
Definition circuit_snapshot (qc : loc) (label snapshot_type : string) :
    Py World unit :=
  add_instruction qc (SnapshotInstr label snapshot_type).

(** *** create_circuit.py *)

Definition kind_of_gate : list string := ["one qubit"; "two qubits"].
Definition one_qubit : list string :=
  ["x"; "y"; "z"; "h"; "t"; "s"; "tdg"; "sdg"; "id"; "u1"; "u2"; "u3"].
Definition two_qubits : list string := ["cx"; "cz"; "swap"].

(** The body of the [for] loop.  [second_qubit] is the one local variable
    that may reach an iteration from an earlier one; [None] is unbound. *)
Definition create_circuit_body (num_qubits : Z) (qc : loc)
    (second_qubit : option Z) : Py World (option Z) :=
  qubit ← random_choice (Range num_qubits);
  let phase_params : list float := [] in
  kind ← random_choice kind_of_gate;
  '(gate, gate_size) ←
    (if String.eqb kind "one qubit"
     then gate ← random_choice one_qubit; mret (gate, 1)
     else gate ← random_choice two_qubits; mret (gate, 2));
  phase_params ←
    (if str_in gate ["u1"; "u2"; "u3"]
     then lambda_ ← random_uniform Float.zero Float.pi;
          mret (phase_params ++ [lambda_])
     else mret phase_params);
  phase_params ←
    (if str_in gate ["u2"; "u3"]
     then phi_ ← random_uniform Float.zero Float.pi;
          mret (phase_params ++ [phi_])
     else mret phase_params);
  phase_params ←
    (if str_in gate ["u3"]
     then theta_ ← random_uniform Float.zero Float.pi;
          mret (phase_params ++ [theta_])
     else mret phase_params);
  second_qubit ←
    (if str_in gate ["cx"; "cz"; "swap"]
     then let choices := list_of_range (Range num_qubits) in
          choices ← lift_option ValueError (list_remove qubit choices);
          second_qubit ← random_choice choices;
          mret (Some second_qubit)
     else mret second_qubit);
  let full_gate := mkGate gate gate_size phase_params in
  list_qubits ←
    (if bool_decide (gate_size = 1)
     then q0 ← circuit_qubit qc qubit; mret [q0]
     else q0 ← circuit_qubit qc qubit;
          second_qubit ← lift_option UnboundLocalError second_qubit;
          q1 ← circuit_qubit qc second_qubit;
          mret [q0; q1]);
  circuit_append qc full_gate list_qubits;;
  mret second_qubit.

Definition create_circuit (num_qubits number_of_gates seed : Z) (qc : loc) :
    Py World loc :=
  log_call (CallCreateCircuit num_qubits number_of_gates seed qc);;
  random_seed seed;;
  for_range number_of_gates
    (λ num_gates, create_circuit_body num_qubits qc) None;;
  mret qc.

(** *** random_statevector_test.py *)

(** [execute(circuits, QasmSimulator(), backend_options=..., shots=...)]
    followed by [.result()]: the simulator sees the circuits as they are
    when the call is made. *)
Definition simulate (values : list QuantumCircuit)
    (backend_options : gmap string string) (shots : Z) : Py World Result :=
  λ w, let '(r, s) := sim_execute values backend_options shots (w_sim w) in
       (Ok r, set_sim s w).

Definition execute (circuits : list loc)
    (backend_options : gmap string string) (shots : Z) : Py World Result :=
  values ← py_map read_circuit circuits;
  log_call (CallExecute circuits values backend_options shots);;
  simulate values backend_options shots.

(** [str(x)] of a float is left to the interpreter. *)
Context (str_float : float → string).

(** [1e-8] *)
Definition threshold : float := Eval vm_compute in Float.of_decimal 1 8.

(** One turn of the comparison loop (lines 58-62). *)
Definition compare_amplitudes (tn ex : list amplitude) (i : Z)
    (errors : Z) : Py World Z :=
  tn_i ← lift_option IndexError (py_getitem tn i);
  ex_i ← lift_option IndexError (py_getitem ex i);
  let diff0 := Float.abs (Float.sub tn_i.1 ex_i.1) in
  let diff1 := Float.abs (Float.sub tn_i.2 ex_i.2) in
  if Float.gt diff0 threshold || Float.gt diff1 threshold then
    print ("diff in index " +:+ pretty i +:+ " " +:+ str_float diff0
           +:+ " " +:+ str_float diff1);;
    mret (errors + 1)
  else mret errors.

(** The comparison of the two snapshots (lines 52-68).  [pow(2, n)] is a
    float for negative [n], which [range] refuses. *)
Definition compare_statevectors (num_qubits : Z)
    (statevector_TN statevector_ES : gmap string (list (list amplitude))) :
    Py World unit :=
  let length : option Z :=
    if bool_decide (0 ≤ num_qubits) then Some (2 ^ num_qubits) else None in
  tn ← (l ← lift_option KeyError (statevector_TN !! "my_sv");
        lift_option IndexError (py_getitem l 0));
  ex ← (l ← lift_option KeyError (statevector_ES !! "my_sv");
        lift_option IndexError (py_getitem l 0));
  let errors := 0 in
  length ← lift_option TypeError length;
  errors ← for_range length (compare_amplitudes tn ex) errors;
  (if bool_decide (errors = 0) then print "test passed"
   else print ("FAILURE: " +:+ pretty errors +:+ " mismatches found"));;
  print "-----------".

(** Lines 13-68.  The registers of lines 19 and 20 are the ones qiskit
    builds for a positive [num_qubits]; what its constructors do with
    another size is not part of this embedding. *)
Definition random_statevector_test (num_qubits num_gates seed : Z) :
    Py World unit :=
  seed ← (if bool_decide (seed = 100000000)
          then random_choice (Range seed) else mret seed);
  print ("running test: num_qubits=" +:+ pretty num_qubits
         +:+ ", num_gates=" +:+ pretty num_gates
         +:+ ", seed = " +:+ pretty seed);;
  let q := QuantumRegister num_qubits in
  let c := ClassicalRegister num_qubits in
  qc ← new_circuit q c "tn_circuit";
  qc ← create_circuit num_qubits num_gates seed qc;
  circuit_snapshot qc "my_sv" "statevector";;
  let BACKEND_OPTS_ES : gmap string string := {[ "method" := "statevector" ]} in
  result_ES ← execute [qc] BACKEND_OPTS_ES 1;
  let res_ES := results result_ES in
  res_ES_0 ← lift_option IndexError (py_getitem res_ES 0);
  let statevector_ES := snapshots_statevector res_ES_0 in
  let BACKEND_OPTS_TN : gmap string string := {[ "method" := "tensor_network" ]} in
  result_TN ← execute [qc] BACKEND_OPTS_TN 1;
  let res_TN := results result_TN in
  res_TN_0 ← lift_option IndexError (py_getitem res_TN 0);
  let statevector_TN := snapshots_statevector res_TN_0 in
  compare_statevectors num_qubits statevector_TN statevector_ES.

(** The call with every argument left at its default. *)
Definition random_statevector_test_default : Py World unit :=
  random_statevector_test 4 10 100000000.
End scripts.

(** ** Specifications of the scripts *)

(** The number of parameters of a gate: one for [u1], two for [u2], three
    for [u3], none for any other gate. *)
Definition param_count (name : string) : nat :=
  if String.eqb name "u1" then 1
  else if String.eqb name "u2" then 2
  else if String.eqb name "u3" then 3
  else 0.

(** A parameter lies in the interval from 0 to pi. *)
Definition in_zero_pi (p : float) : Prop :=
  Float.le Float.zero p = true ∧ Float.le p Float.pi = true.

(** The instructions one turn of the loop of [create_circuit] can append
    to a circuit with qubits [qs]: a one-qubit gate on the qubit at a
    position [a], or a two-qubit gate on the qubits at two different
    positions [a] and [b]. *)
Inductive random_gate (num_qubits : Z) (qs : list Bit) : Instruction → Prop :=
  | random_one_qubit name params a qa :
      name ∈ one_qubit →
      length params = param_count name →
      Forall in_zero_pi params →
      0 ≤ a < num_qubits →
      qs !! Z.to_nat a = Some qa →
      random_gate num_qubits qs (GateInstr (mkGate name 1 params) [qa])
  | random_two_qubits name a b qa qb :
      name ∈ two_qubits →
      0 ≤ a < num_qubits →
      0 ≤ b < num_qubits →
      a ≠ b →
      qs !! Z.to_nat a = Some qa →
      qs !! Z.to_nat b = Some qb →
      random_gate num_qubits qs (GateInstr (mkGate name 2 []) [qa; qb]).

(** A gate of the one-qubit kind is named in [one_qubit], a gate of the
    two-qubit kind in [two_qubits]; it carries [param_count] parameters,
    each in the interval from 0 to pi. *)
Definition gate_as_specified (i : Instruction) : Prop :=
  ∃ gate qargs,
    i = GateInstr gate qargs ∧
    ((gate_num_qubits gate = 1 ∧ gate_name gate ∈ one_qubit) ∨
     (gate_num_qubits gate = 2 ∧ gate_name gate ∈ two_qubits)) ∧
    length (gate_params gate) = param_count (gate_name gate) ∧
    Forall in_zero_pi (gate_params gate).

(** The two differences the comparison computes for a pair of amplitudes
    [(tn[i], ex[i])]. *)
Definition diff0 (p : amplitude * amplitude) : float :=
  Float.abs (Float.sub p.1.1 p.2.1).
Definition diff1 (p : amplitude * amplitude) : float :=
  Float.abs (Float.sub p.1.2 p.2.2).

(** At least one of the two differences exceeds the threshold. *)
Definition mismatch (threshold : float) (p : amplitude * amplitude) : bool :=
  Float.gt (diff0 p) threshold || Float.gt (diff1 p) threshold.




(** The last line but one that the comparison prints. *)
Definition verdict (errors : nat) : string :=
  if decide (errors = 0%nat) then "test passed"
  else "FAILURE: " +:+ pretty (Z.of_nat errors) +:+ " mismatches found".

(** The circuit [QuantumCircuit(q, c, name="tn_circuit")] starts as. *)
Definition empty_circuit (num_qubits : Z) : QuantumCircuit :=
  mkCircuit "tn_circuit" (register_bits (QuantumRegister num_qubits))
    (register_bits (ClassicalRegister num_qubits)) [].

(** The circuit both executions are given: the random gates and then the
    snapshot. *)
Definition measured_circuit (num_qubits : Z) (gates : list Instruction) :
    QuantumCircuit :=
  with_instructions (empty_circuit num_qubits)
    (gates ++ [SnapshotInstr "my_sv" "statevector"]).

(** The call [execute([qc], ..., backend_options={"method": method},
    shots=1)] on the circuit [c]. *)
Definition execution (qc : loc) (c : QuantumCircuit) (method : string) :
    Call :=
  CallExecute [qc] [c] {[ "method" := method ]} 1.

(** The first line a run prints (line 18). *)
Definition banner (num_qubits num_gates seed : Z) : string :=
  "running test: num_qubits=" +:+ pretty num_qubits
  +:+ ", num_gates=" +:+ pretty num_gates
  +:+ ", seed = " +:+ pretty seed.

Section script_specs.
Context `{RandomGen, Simulator} (str_float : float → string).

(** What one turn of the loop of [create_circuit] leaves behind: a gate
    appended to the circuit, or an [IndexError] and the circuit as it
    was. *)
Definition body_post (n : Z) (qc : loc) (c : QuantumCircuit) (w : World)
    (r : outcome (option Z)) (w' : World) : Prop :=
  w_sim w' = w_sim w ∧ w_stdout w' = w_stdout w ∧ w_calls w' = w_calls w ∧
  match r with
  | Ok _ =>
      ∃ i, random_gate n (qubits c) i ∧
           w_heap w' = <[qc := with_instructions c [i]]> (w_heap w)
  | Raise e =>
      e = IndexError ∧ w_heap w' = w_heap w ∧
      (n < 2 ∨ Z.of_nat (length (qubits c)) < n)
  end.

(** What a call of [create_circuit] leaves behind, whether it returns or
    raises. *)
Definition create_post (n g seed : Z) (qc : loc) (c : QuantumCircuit)
    (w : World) (r : outcome loc) (w' : World) : Prop :=
  w_sim w' = w_sim w ∧ w_stdout w' = w_stdout w ∧
  w_calls w' = w_calls w ++ [CallCreateCircuit n g seed qc] ∧
  ∃ gates,
    Forall (random_gate n (qubits c)) gates ∧
    w_heap w' = <[qc := with_instructions c gates]> (w_heap w) ∧
    match r with
    | Ok qc' => qc' = qc ∧ Z.of_nat (length gates) = Z.max 0 g
    | Raise e =>
        e = IndexError ∧ Z.of_nat (length gates) < g ∧
        (n < 2 ∨ Z.of_nat (length (qubits c)) < n)
    end.

(** Two worlds agree on what [create_circuit] can see: the generator and
    the circuit it is given. *)
Definition agree (qc1 qc2 : loc) (w1 w2 : World) : Prop :=
  w_rng w1 = w_rng w2 ∧ w_heap w1 !! qc1 = w_heap w2 !! qc2.

(** Two computations do the same from agreeing worlds. *)
Definition rel {A} (qc1 qc2 : loc) (m1 m2 : Py World A) : Prop :=
  ∀ w1 w2, agree qc1 qc2 w1 w2 →
    (m1 w1).1 = (m2 w2).1 ∧ agree qc1 qc2 (m1 w1).2 (m2 w2).2.

(** The world in which the loop of [create_circuit] starts: the call is on
    record and the generator is seeded. *)
Definition loop_start (n g seed : Z) (qc : loc) (w : World) : World :=
  set_rng (rng_seed seed) (add_call (CallCreateCircuit n g seed qc) w).

(** A turn of the loop that starts in [w] draws the kind ['two qubits']. *)
Definition draws_two_qubit_kind (n : Z) (w : World) : Prop :=
  ∃ q w1 w2,
    random_choice (Range n) w = (Ok q, w1) ∧
    random_choice kind_of_gate w1 = (Ok "two qubits", w2).

(** The world after [lines] were printed. *)
Definition add_lines (lines : list string) (w : World) : World :=
  mkWorld (w_rng w) (w_heap w) (w_sim w) (w_stdout w ++ lines) (w_calls w).

(** The line printed for a mismatch at index [i]. *)
Definition diff_line (i : Z) (p : amplitude * amplitude) : string :=
  "diff in index " +:+ pretty i +:+ " " +:+ str_float (diff0 p)
  +:+ " " +:+ str_float (diff1 p).

(** The lines printed for the pairs [ps], the first of which has index
    [i]. *)
Fixpoint report (i : Z) (ps : list (amplitude * amplitude)) : list string :=
  match ps with
  | [] => []
  | p :: ps =>
      (if mismatch threshold p then [diff_line i p] else [])
      ++ report (i + 1) ps
  end.

(** The seed [random_statevector_test] works with after line 17. *)
Definition used_seed (seed : Z) (w : World) : Z :=
  if bool_decide (seed = 100000000)
  then (rng_randbelow 100000000 (w_rng w)).1
  else seed.

(** How a run of [random_statevector_test] that started in [w] and called
    [create_circuit] in [w1] ended in [w'] with outcome [o]: [gates] are
    the gates drawn, [execs] the executions and [lines] what was printed
    after the banner.  The first execution finds the simulator as it was
    in [w]. *)
Definition run_post (n g seed : Z) (w : World) (o : outcome unit)
    (w' : World) : Prop :=
  let qc := length (w_heap w) in
  let s := used_seed seed w in
  ∃ (w1 : World) gates execs lines,
    w_heap w1 = w_heap w ++ [empty_circuit n] ∧
    let cr := create_circuit n g s qc w1 in
    w_heap cr.2 = w_heap w ++ [with_instructions (empty_circuit n) gates] ∧
    Forall (random_gate n (qubits (empty_circuit n))) gates ∧
    w_rng w' = w_rng cr.2 ∧
    w_calls w' = w_calls w ++ CallCreateCircuit n g s qc :: execs ∧
    w_stdout w' = w_stdout w ++ banner n g s :: lines ∧
    match cr.1 with
    | Raise e =>
        e = IndexError ∧
        (n < 2 ∨ Z.of_nat (length (qubits (empty_circuit n))) < n) ∧
        o = Raise e ∧ execs = [] ∧ lines = [] ∧ w_heap w' = w_heap cr.2
    | Ok _ =>
        Z.of_nat (length gates) = Z.max 0 g ∧
        w_heap w' = w_heap w ++ [measured_circuit n gates] ∧
        let result_ES :=
          (sim_execute [measured_circuit n gates]
             {[ "method" := "statevector" ]} 1 (w_sim w)).1 in
        ((results result_ES = [] ∧
          execs = [execution qc (measured_circuit n gates) "statevector"] ∧
          lines = [] ∧ o = Raise IndexError) ∨
         (results result_ES ≠ [] ∧
          execs = [execution qc (measured_circuit n gates) "statevector";
                   execution qc (measured_circuit n gates) "tensor_network"] ∧
          ((lines = [] ∧ o = Raise IndexError) ∨
           ∃ svTN svES (w5 : World),
             compare_statevectors str_float n svTN svES w5
               = (o, add_lines lines w5))))
    end.
End script_specs.

(** ** Concrete interfaces, to run the scripts on *)

Module Concrete.
(** A linear congruential generator standing in for the Mersenne Twister
    of [random]; [uniform(a, b)] returns one of the two end points. *)
Definition lcg_next (s : Z) : Z := (1103515245 * s + 12345) `mod` 2147483648.

Definition lcg : RandomGen.
Proof.
  refine {|
    rng_state := Z;
    rng_seed seed := Z.abs seed `mod` 2147483648;
    rng_randbelow n s := ((lcg_next s `div` 65536) `mod` n, lcg_next s);
    rng_uniform a b s := (if Z.even (lcg_next s `div` 65536) then a else b, lcg_next s);
  |}.
  - abstract (intros n s Hn; simpl; apply Z.mod_pos_bound; lia).
  - abstract
      (intros a b s Hab; simpl;
       assert (Hrefl : ∀ x y, Float.le x y = true →
                 Float.le x x = true ∧ Float.le y y = true)
         by (unfold Float.le, SFleb, SFcompare;
             intros [[]|[]| |[] m e] [[]|[]| |[] m' e']; try done; intros _;
             rewrite ?Z.compare_refl, ?Pos.compare_cont_refl; done);
       destruct (Hrefl a b Hab);
       destruct (Z.even _); done).
Defined.

(** The state |0...0> on [n] qubits, as a snapshot. *)
Definition one : float := Float.of_Z 1.
Definition ground_state (n : nat) : list amplitude :=
  (one, Float.zero) :: replicate (2 ^ n - 1)%nat (Float.zero, Float.zero).

(** A simulator that reports, for each circuit, the statevector
    [snapshot method n] under the label ['my_sv']. *)
Definition table_simulator (snapshot : option string → nat → list amplitude) :
    Simulator := {|
  sim_state := unit;
  sim_execute values backend_options shots _ :=
    (mkResult
       ((λ c, mkExperimentResult
                {[ "my_sv" := [snapshot (backend_options !! "method")
                                 (length (qubits c))] ]}) <$> values),
     tt);
|}.

(** Both methods agree. *)
Definition agreeing_simulator : Simulator :=
  table_simulator (λ _ n, ground_state n).

(** The tensor-network method is off by one half in the real part of the
    first amplitude. *)
Definition disagreeing_simulator : Simulator :=
  table_simulator (λ method n,
    if bool_decide (method = Some "tensor_network")
    then (Float.of_decimal 5 1, Float.zero) :: tail (ground_state n)
    else ground_state n).

Definition initial_world (sim : Simulator) (s : @rng_state lcg)
    (st : @sim_state sim) : @World lcg sim :=
  @mkWorld lcg sim s [] st [] [].

(** A world that holds the circuits [heap] and whose generator is in state
    [s]; nothing was printed or called yet. *)
Definition world_of (s : @rng_state lcg) (heap : list QuantumCircuit) :
    @World lcg agreeing_simulator :=
  @mkWorld lcg agreeing_simulator s heap tt [] [].

(** A stand-in for [str] on floats: the mantissa and exponent. *)
Definition str_float (x : float) : string :=
  match x with
  | S754_zero _ => "0.0"
  | S754_infinity s => if s then "-inf" else "inf"
  | S754_nan => "nan"
  | S754_finite s m e =>
      (if s then "-" else "") +:+ pretty (Zpos m) +:+ "*2**" +:+ pretty e
  end.
End Concrete.

(** ** test_noise_model.py *)

(** The tests only call into qiskit and compare what comes back, so a test
    is embedded as the sequence of API calls it makes.  Objects the API
    hands out are opaque handles; numbers are exact rationals, a decimal
    literal standing for the decimal it denotes. *)
Module NoiseTests.
Local Open Scope Q_scope.
Local Coercion inject_Z : Z >-> Q.

Definition handle : Type := nat.

Inductive Register :=
  | QuantumRegister (size : Z) (name : string)
  | ClassicalRegister (size : Z) (name : string).

(** An argument of a circuit method: a register [qr] or one bit [qr[i]]. *)
Inductive BitArg :=
  | Whole (r : Register)
  | Item (r : Register) (i : Z).

(** The circuit methods the tests call. *)
Inductive CircuitOp :=
  | op_h (q : BitArg)
  | op_x (q : BitArg)
  | op_iden (q : BitArg)
  | op_cx (ctl tgt : BitArg)
  | op_barrier (q : BitArg)
  | op_reset (q : BitArg)
  | op_measure (q c : BitArg).

(** A noise-circuit entry [{"name": ..., "qubits": [...]}]. *)
Record NoiseOp := mkNoiseOp { op_name : string; op_qubits : list Z }.

(** The error objects the tests build. *)
Inductive ErrorObj :=
  | QuantumError (noise_ops : list (list NoiseOp * Q))
  | pauli_error (noise_ops : list (string * Q))
  | reset_error (prob0 prob1 : Q)
  | amplitude_damping_error (param_amp excited_state_population : Q).

(** The [instructions] argument: one name or a list of names. *)
Inductive InstrArg :=
  | Name (s : string)
  | Names (l : list string).

(** The methods of [NoiseModel] the simulator tests call. *)
Inductive NoiseCall :=
  | add_readout_error_call (probabilities : list (list Q)) (qubits : list Z)
  | add_all_qubit_readout_error_call (probabilities : list (list Q))
  | add_quantum_error_call (error : ErrorObj) (instructions : InstrArg)
      (qubits : list Z)
  | add_all_qubit_quantum_error_call (error : ErrorObj)
      (instructions : InstrArg)
  | add_nonlocal_quantum_error_call (error : ErrorObj)
      (instructions : InstrArg) (qubits noise_qubits : list Z).

(** [measure_instr(qubits, memory)] *)
Inductive QobjInstr :=
  | measure_instr (qubits memory : list Z).

(** One call into qiskit or into the test harness. *)
Inductive Event :=
  | NewCircuit (out : handle) (qr cr : Register)
  | CircuitCall (circuit : handle) (op : CircuitOp)
  | NewBackend (out : handle)
  | NewNoiseModel (out : handle)
  | NoiseModelCall (noise_model : handle) (call : NoiseCall)
  (** [transpile(circuit, basis_gates=noise_model.basis_gates)] *)
  | Transpile (circuit : handle) (basis_gates_of : handle) (out : handle)
  (** [assemble(circuits, backend, shots=shots)] *)
  | Assemble (circuits : list handle) (backend : handle) (shots : Z)
      (out : handle)
  (** [append_instr(qobj, exp_index, item)] *)
  | AppendInstr (qobj : handle) (exp_index : Z) (item : QobjInstr)
  (** [backend.run(qobj, noise_model=noise_model).result()] *)
  | Run (backend qobj noise_model : handle) (out : handle)
  | IsCompleted (result : handle)
  (** [self.compare_counts(result, circuits, targets, delta=delta)] *)
  | CompareCounts (result : handle) (circuits : list handle)
      (targets : list (gmap string Q)) (delta : Q).

Record Session := mkSession { next_handle : handle; events : list Event }.

Definition Test : Type → Type := Py Session.

Definition fresh : Test handle :=
  λ s, (Ok (next_handle s), mkSession (S (next_handle s)) (events s)).
Definition emit (e : Event) : Test unit :=
  modify (λ s, mkSession (next_handle s) (events s ++ [e])).

Definition QuantumCircuit (qr cr : Register) : Test handle :=
  out ← fresh; emit (NewCircuit out qr cr);; mret out.
Definition QasmSimulator : Test handle :=
  out ← fresh; emit (NewBackend out);; mret out.
Definition NoiseModel : Test handle :=
  out ← fresh; emit (NewNoiseModel out);; mret out.

Definition h (circuit : handle) (q : BitArg) : Test unit :=
  emit (CircuitCall circuit (op_h q)).
Definition x (circuit : handle) (q : BitArg) : Test unit :=
  emit (CircuitCall circuit (op_x q)).
Definition iden (circuit : handle) (q : BitArg) : Test unit :=
  emit (CircuitCall circuit (op_iden q)).
Definition cx (circuit : handle) (ctl tgt : BitArg) : Test unit :=
  emit (CircuitCall circuit (op_cx ctl tgt)).
Definition barrier (circuit : handle) (q : BitArg) : Test unit :=
  emit (CircuitCall circuit (op_barrier q)).
Definition reset (circuit : handle) (q : BitArg) : Test unit :=
  emit (CircuitCall circuit (op_reset q)).
Definition measure (circuit : handle) (q c : BitArg) : Test unit :=
  emit (CircuitCall circuit (op_measure q c)).

Definition add_readout_error (noise_model : handle)
    (probabilities : list (list Q)) (qubits : list Z) : Test unit :=
  emit (NoiseModelCall noise_model (add_readout_error_call probabilities qubits)).
Definition add_all_qubit_readout_error (noise_model : handle)
    (probabilities : list (list Q)) : Test unit :=
  emit (NoiseModelCall noise_model
          (add_all_qubit_readout_error_call probabilities)).
Definition add_quantum_error (noise_model : handle) (error : ErrorObj)
    (instructions : InstrArg) (qubits : list Z) : Test unit :=
  emit (NoiseModelCall noise_model
          (add_quantum_error_call error instructions qubits)).
Definition add_all_qubit_quantum_error (noise_model : handle)
    (error : ErrorObj) (instructions : InstrArg) : Test unit :=
  emit (NoiseModelCall noise_model
          (add_all_qubit_quantum_error_call error instructions)).
Definition add_nonlocal_quantum_error (noise_model : handle)
    (error : ErrorObj) (instructions : InstrArg)
    (qubits noise_qubits : list Z) : Test unit :=
  emit (NoiseModelCall noise_model
          (add_nonlocal_quantum_error_call error instructions qubits
             noise_qubits)).

Definition transpile (circuit basis_gates_of : handle) : Test handle :=
  out ← fresh; emit (Transpile circuit basis_gates_of out);; mret out.
Definition assemble (circuits : list handle) (backend : handle)
    (shots : Z) : Test handle :=
  out ← fresh; emit (Assemble circuits backend shots out);; mret out.
Definition append_instr (qobj : handle) (exp_index : Z) (item : QobjInstr) :
    Test unit :=
  emit (AppendInstr qobj exp_index item).
Definition run_result (backend qobj noise_model : handle) : Test handle :=
  out ← fresh; emit (Run backend qobj noise_model out);; mret out.
Definition is_completed (result : handle) : Test unit :=
  emit (IsCompleted result).
Definition compare_counts (result : handle) (circuits : list handle)
    (targets : list (gmap string Q)) (delta : Q) : Test unit :=
  emit (CompareCounts result circuits targets delta).

(** [l[i]] and [sum(l)] *)
Definition item {A} (l : list A) (i : Z) : Test A :=
  lift_option IndexError (py_getitem l i).
Definition sum (l : list Q) : Q := fold_left Qplus l 0.

(** *** The tests of [TestNoise] that run the simulator *)

Definition test_readout_error_qubit0 : Test unit :=
  let qr := QuantumRegister 2 "qr" in
  let cr := ClassicalRegister 2 "cr" in
  circuit ← QuantumCircuit qr cr;
  h circuit (Item qr 0);;
  cx circuit (Item qr 0) (Item qr 1);;
  barrier circuit (Whole qr);;
  measure circuit (Item qr 0) (Item cr 0);;
  barrier circuit (Whole qr);;
  measure circuit (Item qr 1) (Item cr 1);;
  backend ← QasmSimulator;
  let probs_given0 := [0.9; 0.1] in
  let probs_given1 := [0.3; 0.7] in
  noise_model ← NoiseModel;
  add_readout_error noise_model [probs_given0; probs_given1] [0%Z];;
  let shots : Z := 2000%Z in
  v0 ← item probs_given0 0;
  v1 ← item probs_given0 1;
  v2 ← item probs_given1 0;
  v3 ← item probs_given1 1;
  let target : gmap string Q :=
    {[ "0x0" := v0 * shots / 2;
       "0x1" := v1 * shots / 2;
       "0x2" := v2 * shots / 2;
       "0x3" := v3 * shots / 2 ]} in
  circuit ← transpile circuit noise_model;
  qobj ← assemble [circuit] backend shots;
  result ← run_result backend qobj noise_model;
  is_completed result;;
  compare_counts result [circuit] [target] (0.05 * shots).

Definition test_readout_error_qubit1 : Test unit :=
  let qr := QuantumRegister 2 "qr" in
  let cr := ClassicalRegister 2 "cr" in
  circuit ← QuantumCircuit qr cr;
  h circuit (Item qr 0);;
  cx circuit (Item qr 0) (Item qr 1);;
  barrier circuit (Whole qr);;
  measure circuit (Item qr 0) (Item cr 0);;
  barrier circuit (Whole qr);;
  measure circuit (Item qr 1) (Item cr 1);;
  backend ← QasmSimulator;
  let probs_given0 := [0.9; 0.1] in
  let probs_given1 := [0.3; 0.7] in
  noise_model ← NoiseModel;
  add_readout_error noise_model [probs_given0; probs_given1] [1%Z];;
  let shots : Z := 2000%Z in
  v0 ← item probs_given0 0;
  v1 ← item probs_given1 0;
  v2 ← item probs_given0 1;
  v3 ← item probs_given1 1;
  let target : gmap string Q :=
    {[ "0x0" := v0 * shots / 2;
       "0x1" := v1 * shots / 2;
       "0x2" := v2 * shots / 2;
       "0x3" := v3 * shots / 2 ]} in
  circuit ← transpile circuit noise_model;
  qobj ← assemble [circuit] backend shots;
  result ← run_result backend qobj noise_model;
  is_completed result;;
  compare_counts result [circuit] [target] (0.05 * shots).

Definition test_readout_error_all_qubit : Test unit :=
  let qr := QuantumRegister 2 "qr" in
  let cr := ClassicalRegister 2 "cr" in
  circuit ← QuantumCircuit qr cr;
  h circuit (Item qr 0);;
  cx circuit (Item qr 0) (Item qr 1);;
  barrier circuit (Whole qr);;
  measure circuit (Item qr 0) (Item cr 0);;
  barrier circuit (Whole qr);;
  measure circuit (Item qr 1) (Item cr 1);;
  backend ← QasmSimulator;
  let probs_given0 := [0.9; 0.1] in
  let probs_given1 := [0.3; 0.7] in
  noise_model ← NoiseModel;
  add_all_qubit_readout_error noise_model [probs_given0; probs_given1];;
  let shots : Z := 2000%Z in
  g00 ← item probs_given0 0;
  g01 ← item probs_given0 1;
  g10 ← item probs_given1 0;
  g11 ← item probs_given1 1;
  let p00 := 0.5 * (g00 ^ 2 + g10 ^ 2) in
  let p01 := 0.5 * (g00 * g01 + g10 * g11) in
  let p10 := 0.5 * (g00 * g01 + g10 * g11) in
  let p11 := 0.5 * (g01 ^ 2 + g11 ^ 2) in
  let target : gmap string Q :=
    {[ "0x0" := p00 * shots;
       "0x1" := p01 * shots;
       "0x2" := p10 * shots;
       "0x3" := p11 * shots ]} in
  circuit ← transpile circuit noise_model;
  qobj ← assemble [circuit] backend shots;
  result ← run_result backend qobj noise_model;
  is_completed result;;
  compare_counts result [circuit] [target] (0.05 * shots).

(** [sum([ideal * noise[j] for ideal, noise in zip(probs_ideal, probs_noise)])] *)
Definition noisy_probability (probs_ideal : list Q)
    (probs_noise : list (list Q)) (j : Z) : Test Q :=
  terms ← py_map (λ '(ideal, noise), n ← item noise j; mret (ideal * n))
            (zip probs_ideal probs_noise);
  mret (sum terms).

Definition test_readout_error_correlated_2qubit : Test unit :=
  let qr := QuantumRegister 2 "qr" in
  let cr := ClassicalRegister 2 "cr" in
  circuit ← QuantumCircuit qr cr;
  h circuit (Whole qr);;
  barrier circuit (Whole qr);;
  backend ← QasmSimulator;
  let probs_given00 := [0.3; 0; 0; 0.7] in
  let probs_given01 := [0; 0.6; 0.4; 0] in
  let probs_given10 := [0; 0; 1; 0] in
  let probs_given11 := [0.1; 0; 0; 0.9] in
  let probs_noise :=
    [probs_given00; probs_given01; probs_given10; probs_given11] in
  noise_model ← NoiseModel;
  add_readout_error noise_model probs_noise [0%Z; 1%Z];;
  let shots : Z := 2000%Z in
  let probs_ideal := [0.25; 0.25; 0.25; 0.25] in
  p00 ← noisy_probability probs_ideal probs_noise 0;
  p01 ← noisy_probability probs_ideal probs_noise 1;
  p10 ← noisy_probability probs_ideal probs_noise 2;
  p11 ← noisy_probability probs_ideal probs_noise 3;
  let target : gmap string Q :=
    {[ "0x0" := p00 * shots;
       "0x1" := p01 * shots;
       "0x2" := p10 * shots;
       "0x3" := p11 * shots ]} in
  circuit ← transpile circuit noise_model;
  qobj ← assemble [circuit] backend shots;
  let item := measure_instr [0%Z; 1%Z] [0%Z; 1%Z] in
  append_instr qobj 0 item;;
  result ← run_result backend qobj noise_model;
  is_completed result;;
  compare_counts result [circuit] [target] (0.05 * shots).

Definition test_reset_error_specific_qubit_50percent : Test unit :=
  let qr := QuantumRegister 2 "qr" in
  let cr := ClassicalRegister 2 "cr" in
  circuit ← QuantumCircuit qr cr;
  x circuit (Whole qr);;
  measure circuit (Whole qr) (Whole cr);;
  backend ← QasmSimulator;
  let noise_circs :=
    [[mkNoiseOp "reset" [0%Z]]; [mkNoiseOp "id" [0%Z]]] in
  let noise_probs := [0.5; 0.5] in
  let error := QuantumError (zip noise_circs noise_probs) in
  noise_model ← NoiseModel;
  add_quantum_error noise_model error (Name "u3") [0%Z];;
  let shots : Z := 2000%Z in
  let target : gmap string Q :=
    {[ "0x2" := shots / 2; "0x3" := shots / 2 ]} in
  circuit ← transpile circuit noise_model;
  qobj ← assemble [circuit] backend shots;
  result ← run_result backend qobj noise_model;
  is_completed result;;
  compare_counts result [circuit] [target] (0.05 * shots).

Definition test_reset_error_specific_qubit_25percent : Test unit :=
  let qr := QuantumRegister 2 "qr" in
  let cr := ClassicalRegister 2 "cr" in
  circuit ← QuantumCircuit qr cr;
  x circuit (Whole qr);;
  measure circuit (Whole qr) (Whole cr);;
  backend ← QasmSimulator;
  let noise_circs :=
    [[mkNoiseOp "reset" [0%Z]]; [mkNoiseOp "id" [0%Z]]] in
  let noise_probs := [0.25; 0.75] in
  let error := QuantumError (zip noise_circs noise_probs) in
  noise_model ← NoiseModel;
  add_quantum_error noise_model error (Name "u3") [1%Z];;
  let shots : Z := 2000%Z in
  let target : gmap string Q :=
    {[ "0x1" := shots / 4; "0x3" := 3 * shots / 4 ]} in
  circuit ← transpile circuit noise_model;
  qobj ← assemble [circuit] backend shots;
  result ← run_result backend qobj noise_model;
  is_completed result;;
  compare_counts result [circuit] [target] (0.05 * shots).

Definition test_reset_error_all_qubit_100percent : Test unit :=
  let qr := QuantumRegister 2 "qr" in
  let cr := ClassicalRegister 2 "cr" in
  circuit ← QuantumCircuit qr cr;
  x circuit (Whole qr);;
  measure circuit (Whole qr) (Whole cr);;
  backend ← QasmSimulator;
  let noise_circs :=
    [[mkNoiseOp "reset" [0%Z]]; [mkNoiseOp "id" [0%Z]]] in
  let noise_probs := [1; 0] in
  let error := QuantumError (zip noise_circs noise_probs) in
  noise_model ← NoiseModel;
  add_all_qubit_quantum_error noise_model error (Name "u3");;
  let shots : Z := 100%Z in
  let target : gmap string Q := {[ "0x0" := shots : Q ]} in
  circuit ← transpile circuit noise_model;
  qobj ← assemble [circuit] backend shots;
  result ← run_result backend qobj noise_model;
  is_completed result;;
  compare_counts result [circuit] [target] 0.

Definition test_all_qubit_pauli_error_gate_100percent : Test unit :=
  let qr := QuantumRegister 2 "qr" in
  let cr := ClassicalRegister 2 "cr" in
  circuit ← QuantumCircuit qr cr;
  iden circuit (Whole qr);;
  barrier circuit (Whole qr);;
  measure circuit (Whole qr) (Whole cr);;
  backend ← QasmSimulator;
  let shots : Z := 100%Z in
  let error := pauli_error [("X", 1)] in
  noise_model ← NoiseModel;
  add_all_qubit_quantum_error noise_model error (Name "id");;
  let target : gmap string Q :=
    {[ "0x3" := shots : Q ]} in
  circuit ← transpile circuit noise_model;
  qobj ← assemble [circuit] backend shots;
  result ← run_result backend qobj noise_model;
  is_completed result;;
  compare_counts result [circuit] [target] 0.

Definition test_all_qubit_pauli_error_gate_25percent : Test unit :=
  let qr := QuantumRegister 2 "qr" in
  let cr := ClassicalRegister 2 "cr" in
  circuit ← QuantumCircuit qr cr;
  iden circuit (Whole qr);;
  barrier circuit (Whole qr);;
  measure circuit (Whole qr) (Whole cr);;
  backend ← QasmSimulator;
  let shots : Z := 2000%Z in
  let error := pauli_error [("X", 0.25); ("I", 0.75)] in
  noise_model ← NoiseModel;
  add_all_qubit_quantum_error noise_model error (Name "id");;
  let target : gmap string Q :=
    {[ "0x0" := 9 * shots / 16;
       "0x1" := 3 * shots / 16;
       "0x2" := 3 * shots / 16;
       "0x3" := shots / 16 ]} in
  circuit ← transpile circuit noise_model;
  qobj ← assemble [circuit] backend shots;
  result ← run_result backend qobj noise_model;
  is_completed result;;
  compare_counts result [circuit] [target] (0.05 * shots).

Definition test_specific_qubit_pauli_error_gate_100percent : Test unit :=
  let qr := QuantumRegister 2 "qr" in
  let cr := ClassicalRegister 2 "cr" in
  circuit ← QuantumCircuit qr cr;
  iden circuit (Whole qr);;
  barrier circuit (Whole qr);;
  measure circuit (Whole qr) (Whole cr);;
  backend ← QasmSimulator;
  let shots : Z := 100%Z in
  let error := pauli_error [("X", 1)] in
  noise_model ← NoiseModel;
  add_quantum_error noise_model error (Name "id") [1%Z];;
  let target : gmap string Q :=
    {[ "0x2" := shots : Q ]} in
  circuit ← transpile circuit noise_model;
  qobj ← assemble [circuit] backend shots;
  result ← run_result backend qobj noise_model;
  is_completed result;;
  compare_counts result [circuit] [target] 0.

Definition test_specific_qubit_pauli_error_gate_25percent : Test unit :=
  let qr := QuantumRegister 2 "qr" in
  let cr := ClassicalRegister 2 "cr" in
  circuit ← QuantumCircuit qr cr;
  iden circuit (Whole qr);;
  barrier circuit (Whole qr);;
  measure circuit (Whole qr) (Whole cr);;
  backend ← QasmSimulator;
  let shots : Z := 2000%Z in
  let error := pauli_error [("X", 0.25); ("I", 0.75)] in
  noise_model ← NoiseModel;
  add_quantum_error noise_model error (Name "id") [0%Z];;
  let target : gmap string Q :=
    {[ "0x0" := 3 * shots / 4; "0x1" := shots / 4 ]} in
  circuit ← transpile circuit noise_model;
  qobj ← assemble [circuit] backend shots;
  result ← run_result backend qobj noise_model;
  is_completed result;;
  compare_counts result [circuit] [target] (0.05 * shots).

Definition test_nonlocal_pauli_error_gate_25percent : Test unit :=
  let qr := QuantumRegister 3 "qr" in
  let cr := ClassicalRegister 3 "cr" in
  circuit ← QuantumCircuit qr cr;
  cx circuit (Item qr 0) (Item qr 1);;
  barrier circuit (Whole qr);;
  cx circuit (Item qr 1) (Item qr 0);;
  barrier circuit (Whole qr);;
  measure circuit (Whole qr) (Whole cr);;
  backend ← QasmSimulator;
  let shots : Z := 2000%Z in
  let error := pauli_error [("XII", 0.25); ("III", 0.75)] in
  noise_model ← NoiseModel;
  add_nonlocal_quantum_error noise_model error (Name "cx") [0%Z; 1%Z]
    [0%Z; 1%Z; 2%Z];;
  let target : gmap string Q :=
    {[ "0x0" := 3 * shots / 4; "0x4" := shots / 4 ]} in
  circuit ← transpile circuit noise_model;
  qobj ← assemble [circuit] backend shots;
  result ← run_result backend qobj noise_model;
  is_completed result;;
  compare_counts result [circuit] [target] (0.05 * shots).

Definition test_all_qubit_pauli_error_measure_25percent : Test unit :=
  let qr := QuantumRegister 2 "qr" in
  let cr := ClassicalRegister 2 "cr" in
  circuit ← QuantumCircuit qr cr;
  measure circuit (Whole qr) (Whole cr);;
  backend ← QasmSimulator;
  let shots : Z := 2000%Z in
  let error := pauli_error [("X", 0.25); ("I", 0.75)] in
  noise_model ← NoiseModel;
  add_all_qubit_quantum_error noise_model error (Name "measure");;
  let target : gmap string Q :=
    {[ "0x0" := 9 * shots / 16;
       "0x1" := 3 * shots / 16;
       "0x2" := 3 * shots / 16;
       "0x3" := shots / 16 ]} in
  circuit ← transpile circuit noise_model;
  qobj ← assemble [circuit] backend shots;
  result ← run_result backend qobj noise_model;
  is_completed result;;
  compare_counts result [circuit] [target] (0.05 * shots).

Definition test_specific_qubit_pauli_error_measure_25percent : Test unit :=
  let qr := QuantumRegister 2 "qr" in
  let cr := ClassicalRegister 2 "cr" in
  circuit ← QuantumCircuit qr cr;
  measure circuit (Whole qr) (Whole cr);;
  backend ← QasmSimulator;
  let shots : Z := 2000%Z in
  let error := pauli_error [("X", 0.25); ("I", 0.75)] in
  noise_model ← NoiseModel;
  add_quantum_error noise_model error (Name "measure") [1%Z];;
  let target : gmap string Q :=
    {[ "0x0" := 3 * shots / 4; "0x2" := shots / 4 ]} in
  circuit ← transpile circuit noise_model;
  qobj ← assemble [circuit] backend shots;
  result ← run_result backend qobj noise_model;
  is_completed result;;
  compare_counts result [circuit] [target] (0.05 * shots).

Definition test_nonlocal_pauli_error_measure_25percent : Test unit :=
  let qr := QuantumRegister 2 "qr" in
  let cr := ClassicalRegister 2 "cr" in
  circuit ← QuantumCircuit qr cr;
  measure circuit (Item qr 0) (Item cr 0);;
  barrier circuit (Whole qr);;
  measure circuit (Item qr 1) (Item cr 1);;
  backend ← QasmSimulator;
  let shots : Z := 2000%Z in
  let error := pauli_error [("X", 0.25); ("I", 0.75)] in
  noise_model ← NoiseModel;
  add_nonlocal_quantum_error noise_model error (Name "measure") [0%Z] [1%Z];;
  let target : gmap string Q :=
    {[ "0x0" := 3 * shots / 4; "0x2" := shots / 4 ]} in
  circuit ← transpile circuit noise_model;
  qobj ← assemble [circuit] backend shots;
  result ← run_result backend qobj noise_model;
  is_completed result;;
  compare_counts result [circuit] [target] (0.05 * shots).

Definition test_all_qubit_pauli_error_reset_25percent : Test unit :=
  let qr := QuantumRegister 2 "qr" in
  let cr := ClassicalRegister 2 "cr" in
  circuit ← QuantumCircuit qr cr;
  barrier circuit (Whole qr);;
  reset circuit (Whole qr);;
  barrier circuit (Whole qr);;
  measure circuit (Whole qr) (Whole cr);;
  backend ← QasmSimulator;
  let shots : Z := 2000%Z in
  let error := pauli_error [("X", 0.25); ("I", 0.75)] in
  noise_model ← NoiseModel;
  add_all_qubit_quantum_error noise_model error (Name "reset");;
  let target : gmap string Q :=
    {[ "0x0" := 9 * shots / 16;
       "0x1" := 3 * shots / 16;
       "0x2" := 3 * shots / 16;
       "0x3" := shots / 16 ]} in
  circuit ← transpile circuit noise_model;
  qobj ← assemble [circuit] backend shots;
  result ← run_result backend qobj noise_model;
  is_completed result;;
  compare_counts result [circuit] [target] (0.05 * shots).

Definition test_specific_qubit_pauli_error_reset_25percent : Test unit :=
  let qr := QuantumRegister 2 "qr" in
  let cr := ClassicalRegister 2 "cr" in
  circuit ← QuantumCircuit qr cr;
  barrier circuit (Whole qr);;
  reset circuit (Whole qr);;
  barrier circuit (Whole qr);;
  measure circuit (Whole qr) (Whole cr);;
  backend ← QasmSimulator;
  let shots : Z := 2000%Z in
  let error := pauli_error [("X", 0.25); ("I", 0.75)] in
  noise_model ← NoiseModel;
  add_quantum_error noise_model error (Name "reset") [1%Z];;
  let target : gmap string Q :=
    {[ "0x0" := 3 * shots / 4; "0x2" := shots / 4 ]} in
  circuit ← transpile circuit noise_model;
  qobj ← assemble [circuit] backend shots;
  result ← run_result backend qobj noise_model;
  is_completed result;;
  compare_counts result [circuit] [target] (0.05 * shots).

Definition test_nonlocal_pauli_error_reset_25percent : Test unit :=
  let qr := QuantumRegister 2 "qr" in
  let cr := ClassicalRegister 2 "cr" in
  circuit ← QuantumCircuit qr cr;
  barrier circuit (Whole qr);;
  reset circuit (Item qr 1);;
  barrier circuit (Whole qr);;
  reset circuit (Item qr 0);;
  barrier circuit (Whole qr);;
  measure circuit (Whole qr) (Whole cr);;
  backend ← QasmSimulator;
  let shots : Z := 2000%Z in
  let error := pauli_error [("X", 0.25); ("I", 0.75)] in
  noise_model ← NoiseModel;
  add_nonlocal_quantum_error noise_model error (Name "reset") [0%Z] [1%Z];;
  let target : gmap string Q :=
    {[ "0x0" := 3 * shots / 4; "0x2" := shots / 4 ]} in
  circuit ← transpile circuit noise_model;
  qobj ← assemble [circuit] backend shots;
  result ← run_result backend qobj noise_model;
  is_completed result;;
  compare_counts result [circuit] [target] (0.05 * shots).

Definition test_amplitude_damping_error : Test unit :=
  let qr := QuantumRegister 1 "qr" in
  let cr := ClassicalRegister 1 "cr" in
  circuit ← QuantumCircuit qr cr;
  x circuit (Whole qr);;
  for_range 30
    (λ _ _, barrier circuit (Whole qr);; iden circuit (Whole qr)) tt;;
  barrier circuit (Whole qr);;
  measure circuit (Whole qr) (Whole cr);;
  let shots : Z := 2000%Z in
  backend ← QasmSimulator;
  let error := amplitude_damping_error 0.75 0.25 in
  noise_model ← NoiseModel;
  add_all_qubit_quantum_error noise_model error (Name "id");;
  let target : gmap string Q :=
    {[ "0x0" := 3 * shots / 4; "0x1" := shots / 4 ]} in
  circuit ← transpile circuit noise_model;
  qobj ← assemble [circuit] backend shots;
  result ← run_result backend qobj noise_model;
  is_completed result;;
  compare_counts result [circuit] [target] (0.05 * shots).

Definition test_standard_reset0_error_100percent : Test unit :=
  let qr := QuantumRegister 1 "qr" in
  let cr := ClassicalRegister 1 "cr" in
  circuit ← QuantumCircuit qr cr;
  x circuit (Whole qr);;
  barrier circuit (Whole qr);;
  measure circuit (Whole qr) (Whole cr);;
  backend ← QasmSimulator;
  let shots : Z := 100%Z in
  let error := reset_error 1 0 in
  noise_model ← NoiseModel;
  add_all_qubit_quantum_error noise_model error (Names ["id"; "x"]);;
  let target : gmap string Q :=
    {[ "0x0" := shots : Q ]} in
  circuit ← transpile circuit noise_model;
  qobj ← assemble [circuit] backend shots;
  result ← run_result backend qobj noise_model;
  is_completed result;;
  compare_counts result [circuit] [target] 0.

Definition test_standard_reset1_error_100percent : Test unit :=
  let qr := QuantumRegister 1 "qr" in
  let cr := ClassicalRegister 1 "cr" in
  circuit ← QuantumCircuit qr cr;
  iden circuit (Whole qr);;
  barrier circuit (Whole qr);;
  measure circuit (Whole qr) (Whole cr);;
  backend ← QasmSimulator;
  let shots : Z := 100%Z in
  let error := reset_error 0 1 in
  noise_model ← NoiseModel;
  add_all_qubit_quantum_error noise_model error (Names ["id"; "x"]);;
  let target : gmap string Q :=
    {[ "0x1" := shots : Q ]} in
  circuit ← transpile circuit noise_model;
  qobj ← assemble [circuit] backend shots;
  result ← run_result backend qobj noise_model;
  is_completed result;;
  compare_counts result [circuit] [target] 0.

Definition test_standard_reset0reset1_error_50percent : Test unit :=
  let qr := QuantumRegister 2 "qr" in
  let cr := ClassicalRegister 2 "cr" in
  circuit ← QuantumCircuit qr cr;
  iden circuit (Item qr 0);;
  x circuit (Item qr 1);;
  barrier circuit (Whole qr);;
  measure circuit (Whole qr) (Whole cr);;
  backend ← QasmSimulator;
  let shots : Z := 2000%Z in
  let error := reset_error 0.25 0.25 in
  noise_model ← NoiseModel;
  add_all_qubit_quantum_error noise_model error (Names ["id"; "x"]);;
  let target : gmap string Q :=
    {[ "0x0" := 3 * shots / 16;
       "0x1" := shots / 16;
       "0x2" := 9 * shots / 16;
       "0x3" := 3 * shots / 16 ]} in
  circuit ← transpile circuit noise_model;
  qobj ← assemble [circuit] backend shots;
  result ← run_result backend qobj noise_model;
  is_completed result;;
  compare_counts result [circuit] [target] (0.05 * shots).

(** Every test of the class that runs the simulator, by name. *)
Definition simulator_tests : list (string * Test unit) :=
  [("test_readout_error_qubit0", test_readout_error_qubit0);
   ("test_readout_error_qubit1", test_readout_error_qubit1);
   ("test_readout_error_all_qubit", test_readout_error_all_qubit);
   ("test_readout_error_correlated_2qubit",
    test_readout_error_correlated_2qubit);
   ("test_reset_error_specific_qubit_50percent",
    test_reset_error_specific_qubit_50percent);
   ("test_reset_error_specific_qubit_25percent",
    test_reset_error_specific_qubit_25percent);
   ("test_reset_error_all_qubit_100percent",
    test_reset_error_all_qubit_100percent);
   ("test_all_qubit_pauli_error_gate_100percent",
    test_all_qubit_pauli_error_gate_100percent);
   ("test_all_qubit_pauli_error_gate_25percent",
    test_all_qubit_pauli_error_gate_25percent);
   ("test_specific_qubit_pauli_error_gate_100percent",
    test_specific_qubit_pauli_error_gate_100percent);
   ("test_specific_qubit_pauli_error_gate_25percent",
    test_specific_qubit_pauli_error_gate_25percent);
   ("test_nonlocal_pauli_error_gate_25percent",
    test_nonlocal_pauli_error_gate_25percent);
   ("test_all_qubit_pauli_error_measure_25percent",
    test_all_qubit_pauli_error_measure_25percent);
   ("test_specific_qubit_pauli_error_measure_25percent",
    test_specific_qubit_pauli_error_measure_25percent);
   ("test_nonlocal_pauli_error_measure_25percent",
    test_nonlocal_pauli_error_measure_25percent);
   ("test_all_qubit_pauli_error_reset_25percent",
    test_all_qubit_pauli_error_reset_25percent);
   ("test_specific_qubit_pauli_error_reset_25percent",
    test_specific_qubit_pauli_error_reset_25percent);
   ("test_nonlocal_pauli_error_reset_25percent",
    test_nonlocal_pauli_error_reset_25percent);
   ("test_amplitude_damping_error", test_amplitude_damping_error);
   ("test_standard_reset0_error_100percent",
    test_standard_reset0_error_100percent);
   ("test_standard_reset1_error_100percent",
    test_standard_reset1_error_100percent);
   ("test_standard_reset0reset1_error_50percent",
    test_standard_reset0reset1_error_50percent)].

(** The calls a test makes, in order. *)
Definition calls_of (t : Test unit) : outcome unit * list Event :=
  let '(r, s) := t (mkSession 0%nat []) in (r, events s).
End NoiseTests.

(** ** Specifications of the noise tests *)

Module NoiseSpec.
Import NoiseTests.
Local Open Scope Q_scope.
Local Coercion inject_Z : Z >-> Q.

(** What a test hands to [assemble], to [compare_counts] and to the
    noise model. *)
Definition shots_of (log : list Event) : list Z :=
  omap (λ e, match e with Assemble _ _ shots _ => Some shots | _ => None end)
    log.
Definition targets_of (log : list Event) : list (gmap string Q) :=
  log ≫= λ e, match e with CompareCounts _ _ targets _ => targets | _ => [] end.
Definition deltas_of (log : list Event) : list Q :=
  omap (λ e, match e with CompareCounts _ _ _ delta => Some delta | _ => None end)
    log.
Definition noise_calls_of (log : list Event) : list NoiseCall :=
  omap (λ e, match e with NoiseModelCall _ call => Some call | _ => None end)
    log.

(** The sum of the values of a dictionary. *)
Definition values_sum (d : gmap string Q) : Q :=
  foldr Qplus 0 (snd <$> map_to_list d).

(** The calls that build the circuit, the backend and the noise model. *)
Definition is_setup (e : Event) : bool :=
  match e with
  | NewCircuit _ _ _ | CircuitCall _ _ | NewBackend _ | NewNoiseModel _
  | NoiseModelCall _ _ => true
  | _ => false
  end.

(** One pass through the pipeline: set-up, transpile, assemble, possibly
    instructions appended to the qobj, run, compare. *)
Record Pipeline := mkPipeline {
  p_setup : list Event;
  p_circuit : handle;
  p_noise_model : handle;
  p_backend : handle;
  p_transpiled : handle;
  p_shots : Z;
  p_qobj : handle;
  p_appended : list (Z * QobjInstr);
  p_result : handle;
  p_target : gmap string Q;
  p_delta : Q;
}.

Definition pipeline_log (p : Pipeline) : list Event :=
  p_setup p
  ++ [Transpile (p_circuit p) (p_noise_model p) (p_transpiled p);
      Assemble [p_transpiled p] (p_backend p) (p_shots p) (p_qobj p)]
  ++ ((λ a, AppendInstr (p_qobj p) a.1 a.2) <$> p_appended p)
  ++ [Run (p_backend p) (p_qobj p) (p_noise_model p) (p_result p);
      IsCompleted (p_result p);
      CompareCounts (p_result p) [p_transpiled p] [p_target p] (p_delta p)].

(** The set-up creates the circuit, the backend and the noise model the
    pipeline uses, and calls circuit methods on that circuit only. *)
Definition setup_builds (p : Pipeline) : Prop :=
  Forall (λ e, is_setup e = true) (p_setup p) ∧
  (∃ qr cr, NewCircuit (p_circuit p) qr cr ∈ p_setup p) ∧
  NewBackend (p_backend p) ∈ p_setup p ∧
  NewNoiseModel (p_noise_model p) ∈ p_setup p ∧
  (∀ c op, CircuitCall c op ∈ p_setup p → c = p_circuit p).

Fixpoint take_while {A} (f : A → bool) (l : list A) : list A :=
  match l with
  | [] => []
  | a :: l => if f a then a :: take_while f l else []
  end.
Fixpoint drop_while {A} (f : A → bool) (l : list A) : list A :=
  match l with
  | [] => []
  | a :: l' => if f a then drop_while f l' else l
  end.

(** Reads a log as a pass through the pipeline, if it is one. *)
Definition parse_pipeline (log : list Event) : option Pipeline :=
  let setup := take_while is_setup log in
  match drop_while is_setup log with
  | Transpile c nm t :: Assemble _ b shots q :: rest =>
      let is_append e := match e with AppendInstr _ _ _ => true | _ => false end in
      let appended :=
        omap (λ e, match e with AppendInstr _ i it => Some (i, it) | _ => None end)
          (take_while is_append rest) in
      match drop_while is_append rest with
      | [Run _ _ _ r; IsCompleted _; CompareCounts _ _ [target] delta] =>
          Some (mkPipeline setup c nm b t shots q appended r target delta)
      | _ => None
      end
  | _ => None
  end.

Global Instance Q_eq_dec : EqDecision Q.
Proof. solve_decision. Defined.
Global Instance Register_eq_dec : EqDecision Register.
Proof. solve_decision. Defined.
Global Instance BitArg_eq_dec : EqDecision BitArg.
Proof. solve_decision. Defined.
Global Instance CircuitOp_eq_dec : EqDecision CircuitOp.
Proof. solve_decision. Defined.
Global Instance NoiseOp_eq_dec : EqDecision NoiseOp.
Proof. solve_decision. Defined.
Global Instance ErrorObj_eq_dec : EqDecision ErrorObj.
Proof. solve_decision. Defined.
Global Instance InstrArg_eq_dec : EqDecision InstrArg.
Proof. solve_decision. Defined.
Global Instance NoiseCall_eq_dec : EqDecision NoiseCall.
Proof. solve_decision. Defined.
Global Instance QobjInstr_eq_dec : EqDecision QobjInstr.
Proof. solve_decision. Defined.
Global Instance Event_eq_dec : EqDecision Event.
Proof. solve_decision. Defined.

(** [setup_builds], as a check. *)
Definition setup_buildsb (p : Pipeline) : bool :=
  forallb is_setup (p_setup p)
  && existsb (λ e, match e with
                   | NewCircuit c _ _ => bool_decide (c = p_circuit p)
                   | _ => false
                   end) (p_setup p)
  && bool_decide (NewBackend (p_backend p) ∈ p_setup p)
  && bool_decide (NewNoiseModel (p_noise_model p) ∈ p_setup p)
  && forallb (λ e, match e with
                   | CircuitCall c _ => bool_decide (c = p_circuit p)
                   | _ => true
                   end) (p_setup p).

(** A test ran to its end and its calls are a pass through the
    pipeline. *)
Definition follows_pipeline (t : Test unit) : bool :=
  match calls_of t with
  | (Ok _, log) =>
      match parse_pipeline log with
      | Some p => bool_decide (log = pipeline_log p) && setup_buildsb p
      | None => false
      end
  | _ => false
  end.

(** The probabilities an error object is built from; [reset_error(p0, p1)]
    leaves the qubit alone with probability [1 - p0 - p1]. *)
Definition error_probabilities (e : ErrorObj) : list Q :=
  match e with
  | QuantumError noise_ops => noise_ops.*2
  | pauli_error noise_ops => noise_ops.*2
  | reset_error prob0 prob1 => [prob0; prob1; 1 - prob0 - prob1]
  | amplitude_damping_error param_amp excited_state_population =>
      [param_amp; excited_state_population]
  end.

Definition call_probabilities (c : NoiseCall) : list Q :=
  match c with
  | add_readout_error_call probabilities _
  | add_all_qubit_readout_error_call probabilities => concat probabilities
  | add_quantum_error_call error _ _
  | add_all_qubit_quantum_error_call error _
  | add_nonlocal_quantum_error_call error _ _ _ => error_probabilities error
  end.

(** The noise is deterministic when every probability in it is 0 or 1. *)
Definition deterministic_noise (log : list Event) : bool :=
  forallb (λ q, Qeq_bool q 0 || Qeq_bool q 1)
    (noise_calls_of log ≫= call_probabilities).

(** The target of a test adds up to its shots. *)
Definition target_sums_to_shots (log : list Event) : bool :=
  match shots_of log, targets_of log with
  | [shots], [target] => Qeq_bool (values_sum target) shots
  | _, _ => false
  end.

(** The tolerance of a test is 0 under deterministic noise and
    [0.05 * shots] otherwise. *)
Definition delta_by_determinism (log : list Event) : bool :=
  match shots_of log, deltas_of log with
  | [shots], [delta] =>
      Qeq_bool delta (if deterministic_noise log then 0 else 0.05 * shots)
  | _, _ => false
  end.

(** The distribution of outcomes after a readout error with transition
    matrix [noise] acts on the distribution [ideal]: the probability of
    outcome [j]. *)
Definition readout_probability (ideal : list Q) (noise : list (list Q))
    (j : nat) : Q :=
  foldr Qplus 0 (zip_with (λ p row, p * nth j row 0) ideal noise).

(** The uniform distribution over [n] outcomes. *)
Definition uniform_distribution (n : nat) : list Q :=
  replicate n (1 / inject_Z (Z.of_nat n)).

(** The circuit methods a test calls, in order. *)
Definition circuit_ops_of (log : list Event) : list CircuitOp :=
  omap (λ e, match e with CircuitCall _ op => Some op | _ => None end) log.

(** ['0x' + hex digit] *)
Definition hex_key (j : nat) : string :=
  "0x" +:+ nth j ["0"; "1"; "2"; "3"; "4"; "5"; "6"; "7"; "8"; "9"; "a";
                  "b"; "c"; "d"; "e"; "f"] "".

(** The target of a test is [shots] times the distribution that the
    readout error it registers makes of [ideal]. *)
Definition target_is_readout_of (ideal : list Q) (log : list Event) : bool :=
  match noise_calls_of log, shots_of log, targets_of log with
  | [add_readout_error_call noise _], [shots], [target] =>
      bool_decide (size target = length ideal)
      && forallb (λ j, match target !! hex_key j with
                       | Some v =>
                           Qeq_bool v (shots * readout_probability ideal noise j)
                       | None => false
                       end) (seq 0 (length ideal))
  | _, _, _ => false
  end.
End NoiseSpec.

(** * Proofs *)

(** * Reasoning about Python computations *)


Section monad_facts.
Context {W : Type}.
Implicit Types w : W.

Lemma bind_ok {A B} (m : Py W A) (k : A → Py W B) w a w' :
  m w = (Ok a, w') → (m ≫= k) w = k a w'.
Proof. intros Hm. unfold mbind, py_bind. by rewrite Hm. Qed.

Lemma bind_raise {A B} (m : Py W A) (k : A → Py W B) w e w' :
  m w = (Raise e, w') → (m ≫= k) w = (Raise e, w').
Proof. intros Hm. unfold mbind, py_bind. by rewrite Hm. Qed.

Lemma wp_eq {A} (m : Py W A) Q w r w' : m w = (r, w') → Q r w' → wp m Q w.
Proof. unfold wp. by intros ->. Qed.

Lemma wp_ret {A} (a : A) Q w : Q (Ok a) w → wp (mret a) Q w.
Proof. done. Qed.

Lemma wp_raise {A} e (Q : outcome A → W → Prop) w :
  Q (Raise e) w → wp (raise e) Q w.
Proof. done. Qed.

Lemma wp_modify (f : W → W) Q w : Q (Ok tt) (f w) → wp (modify f) Q w.
Proof. done. Qed.

Lemma wp_bind {A B} (m : Py W A) (k : A → Py W B) Q w :
  wp m (λ r w', match r with
                | Ok a => wp (k a) Q w'
                | Raise e => Q (Raise e) w'
                end) w →
  wp (m ≫= k) Q w.
Proof.
  unfold wp, mbind, py_bind. by destruct (m w) as [[a|e] w'].
Qed.

Lemma wp_mono {A} (m : Py W A) (Q Q' : outcome A → W → Prop) w :
  (∀ r w', Q r w' → Q' r w') → wp m Q w → wp m Q' w.
Proof. unfold wp. auto. Qed.

Lemma wp_lift_option {A} e (o : option A) (Q : outcome A → W → Prop) w :
  match o with Some a => Q (Ok a) w | None => Q (Raise e) w end →
  wp (lift_option e o) Q w.
Proof. by destruct o. Qed.

(** The loop rule: [I i x] holds before the turn with index [i]. *)
Lemma wp_for_range_from {X} (body : Z → X → Py W X)
    (I : Z → X → W → Prop) (Q : outcome X → W → Prop) n :
  ∀ i x w,
    I i x w →
    (∀ j x w, i ≤ j < i + Z.of_nat n → I j x w →
       wp (body j x) (λ r w', match r with
                              | Ok x' => I (j + 1) x' w'
                              | Raise e => Q (Raise e) w'
                              end) w) →
    (∀ x w, I (i + Z.of_nat n) x w → Q (Ok x) w) →
    wp (for_range_from i n body x) Q w.
Proof.
  induction n as [|n IH]; intros i x w HI Hbody Hexit.
  - apply wp_ret, Hexit. by replace (i + Z.of_nat 0) with i by lia.
  - simpl. apply wp_bind.
    eapply wp_mono; [|apply (Hbody i); [lia|done]].
    intros [x'|e] w'; [|done]. intros HI'.
    apply IH; [done| |].
    + intros j y v Hj. apply Hbody. lia.
    + intros y v. replace (i + 1 + Z.of_nat n) with (i + Z.of_nat (S n)) by lia. apply Hexit.
Qed.
End monad_facts.

Lemma py_index_Some {A} len (get : nat → option A) i :
  0 ≤ i < len → py_index len get i = get (Z.to_nat i).
Proof.
  intros Hi. unfold py_index.
  rewrite !bool_decide_eq_true_2 by lia. done.
Qed.

Lemma py_index_ge {A} len (get : nat → option A) i :
  len ≤ i → 0 ≤ i → py_index len get i = None.
Proof.
  intros Hi Hi'. unfold py_index.
  rewrite bool_decide_eq_true_2, bool_decide_eq_false_2 by lia. done.
Qed.

Lemma list_getitem_nonneg {A} (l : list A) i :
  0 ≤ i → py_getitem l i = l !! Z.to_nat i.
Proof.
  intros Hi. simpl. unfold py_index.
  rewrite bool_decide_eq_true_2 by lia.
  case_bool_decide; [done|].
  symmetry. apply lookup_ge_None. lia.
Qed.

Lemma list_remove_spec x l :
  x ∈ l → NoDup l →
  ∃ l', list_remove x l = Some l' ∧ length l = S (length l') ∧
        ∀ y, y ∈ l' ↔ y ∈ l ∧ y ≠ x.
Proof.
  induction l as [|y l IH]; intros Hx Hnd; [by apply elem_of_nil in Hx|].
  apply NoDup_cons in Hnd as [Hy Hnd]. simpl.
  case_bool_decide as Hyx.
  - subst y. exists l. split_and!; [done..|].
    intros z. rewrite elem_of_cons. split; [|intros [[->|Hz] Hne]; done].
    intros Hz. split; [by right|]. intros ->. done.
  - apply elem_of_cons in Hx as [->|Hx]; [done|].
    destruct (IH Hx Hnd) as (l' & -> & Hlen & Hl'). exists (y :: l').
    split_and!; [done|simpl; lia|].
    intros z. rewrite !elem_of_cons, Hl'. split.
    + intros [->|[Hz Hne]]; [split; [by left|done]|split; [by right|done]].
    + intros [[->|Hz] Hne]; [by left|by right].
Qed.

Lemma elem_of_seqZ_0 n x : x ∈ seqZ 0 n ↔ 0 ≤ x < n.
Proof. rewrite elem_of_seqZ. lia. Qed.

Section script_facts.
Context `{RandomGen, Simulator}.
Implicit Types w : World.

Lemma random_choice_nil {A} w :
  random_choice (@nil A) w = (Raise IndexError, w).
Proof. done. Qed.

Lemma random_choice_list {A} (l : list A) w :
  l ≠ [] →
  ∃ x s, x ∈ l ∧ random_choice l w = (Ok x, set_rng s w).
Proof.
  intros Hl. unfold random_choice.
  assert (0 < py_len l) as Hlen.
  { simpl. destruct l; [done|]. simpl. lia. }
  rewrite bool_decide_eq_false_2 by lia.
  pose proof (rng_randbelow_range (py_len l) (w_rng w) Hlen) as Hi.
  destruct (rng_randbelow _ _) as [i s]. simpl in Hi.
  rewrite list_getitem_nonneg by lia.
  destruct (lookup_lt_is_Some_2 l (Z.to_nat i)) as [x Hx].
  { simpl in Hi. lia. }
  rewrite Hx. exists x, s. split; [|done].
  by eapply list_elem_of_lookup_2.
Qed.

Lemma random_choice_range_empty n w :
  n ≤ 0 → random_choice (Range n) w = (Raise IndexError, w).
Proof.
  intros Hn. unfold random_choice. simpl.
  by rewrite bool_decide_eq_true_2 by lia.
Qed.

Lemma random_choice_range n w :
  0 < n →
  ∃ x s, 0 ≤ x < n ∧ rng_randbelow n (w_rng w) = (x, s) ∧
         random_choice (Range n) w = (Ok x, set_rng s w).
Proof.
  intros Hn. unfold random_choice. simpl.
  rewrite bool_decide_eq_false_2 by lia.
  replace (0 `max` n) with n by lia.
  pose proof (rng_randbelow_range n (w_rng w) Hn) as Hi.
  destruct (rng_randbelow _ _) as [i s]. simpl in Hi.
  rewrite py_index_Some by lia.
  exists i, s. split_and!; [lia..|done|]. by rewrite Z2Nat.id by lia.
Qed.

Lemma wp_random_choice_list {A} (l : list A) Q w :
  l ≠ [] →
  (∀ x s, x ∈ l → Q (Ok x) (set_rng s w)) →
  wp (random_choice l) Q w.
Proof.
  intros Hl HQ. destruct (random_choice_list l w Hl) as (x & s & Hx & Hc).
  eapply wp_eq; eauto.
Qed.

Lemma wp_random_choice_range n Q w :
  (n ≤ 0 → Q (Raise IndexError) w) →
  (∀ x s, 0 ≤ x < n → Q (Ok x) (set_rng s w)) →
  wp (random_choice (Range n)) Q w.
Proof.
  intros Hempty HQ. destruct (decide (n ≤ 0)) as [Hn|Hn].
  - eapply wp_eq; [by apply random_choice_range_empty|auto].
  - destruct (random_choice_range n w) as (x & s & Hx & _ & Hc); [lia|].
    eapply wp_eq; eauto.
Qed.

Lemma wp_random_uniform a b Q w :
  Float.le a b = true →
  (∀ x s, Float.le a x = true → Float.le x b = true →
          Q (Ok x) (set_rng s w)) →
  wp (random_uniform a b) Q w.
Proof.
  intros Hab HQ. unfold wp, random_uniform.
  pose proof (rng_uniform_range a b (w_rng w) Hab) as [Ha Hb].
  destruct (rng_uniform _ _ _) as [x s]. simpl in *. auto.
Qed.

Lemma wp_read_circuit qc c Q w :
  w_heap w !! qc = Some c → Q (Ok c) w → wp (read_circuit qc) Q w.
Proof. intros Hqc HQ. unfold wp, read_circuit. by rewrite Hqc. Qed.

Lemma wp_circuit_qubit qc c i Q w :
  w_heap w !! qc = Some c →
  match py_getitem (qubits c) i with
  | Some q => Q (Ok q) w
  | None => Q (Raise IndexError) w
  end →
  wp (circuit_qubit qc i) Q w.
Proof.
  intros Hqc HQ. unfold circuit_qubit. apply wp_bind.
  eapply wp_read_circuit; [done|]. by apply wp_lift_option.
Qed.

Lemma wp_add_instruction qc c i Q w :
  w_heap w !! qc = Some c →
  Q (Ok tt) (set_heap (<[qc := with_instructions c [i]]> (w_heap w)) w) →
  wp (add_instruction qc i) Q w.
Proof.
  intros Hqc HQ. unfold add_instruction. apply wp_bind.
  eapply wp_read_circuit; [done|]. by apply wp_modify.
Qed.
End script_facts.

Lemma list_getitem_cases {A} (l : list A) i :
  0 ≤ i →
  match py_getitem l i with
  | Some q => l !! Z.to_nat i = Some q
  | None => Z.of_nat (length l) ≤ i
  end.
Proof.
  intros Hi. rewrite list_getitem_nonneg by done.
  destruct (l !! Z.to_nat i) eqn:Hl; [done|].
  apply lookup_ge_None in Hl. lia.
Qed.

Ltac eval_guards :=
  repeat match goal with
    | |- context [str_in ?a ?l] =>
        let b := eval vm_compute in (str_in a l) in
        change (str_in a l) with b
    | |- context [String.eqb ?a ?l] =>
        let b := eval vm_compute in (String.eqb a l) in
        change (String.eqb a l) with b
    | |- context [bool_decide (?a = ?l)] =>
        let b := eval vm_compute in (bool_decide (a = l)) in
        change (bool_decide (a = l)) with b
    end;
  cbv beta iota zeta.

Ltac wp_step :=
  lazymatch goal with
  | |- wp (mret _) _ _ => apply wp_ret
  | |- wp (mbind _ _) _ _ => apply wp_bind
  | |- wp (random_uniform _ _) _ _ =>
      apply wp_random_uniform; [reflexivity | intros ? ? ? ?]
  end; eval_guards.

Section body.
Context `{RandomGen, Simulator}.
Implicit Types w : World.



Lemma create_circuit_body_spec n qc c sq w :
  w_heap w !! qc = Some c →
  wp (create_circuit_body n qc sq) (body_post n qc c w) w.
Proof.
  intros Hqc. unfold create_circuit_body.
  apply wp_bind, wp_random_choice_range.
  { intros Hn. unfold body_post. split_and!; [done..|lia]. }
  intros qubit s1 Hqubit. cbv beta iota zeta.
  apply wp_bind, wp_random_choice_list; [done|].
  intros kind s2 Hkind. cbv beta iota zeta.
  apply wp_bind.
  pose proof (list_getitem_cases (qubits c) qubit ltac:(lia)) as Hq0.
  unfold kind_of_gate in Hkind.
  repeat (apply elem_of_cons in Hkind as [->|Hkind]);
    [| |by apply elem_of_nil in Hkind]; eval_guards.
  - (* one qubit *)
    apply wp_bind, wp_random_choice_list; [done|].
    intros gate s3 Hgate. cbv beta iota zeta. apply wp_ret. cbv beta iota zeta.
    assert (Hgate' := Hgate). unfold one_qubit in Hgate'.
    repeat (apply elem_of_cons in Hgate' as [->|Hgate']);
      [..|by apply elem_of_nil in Hgate']; eval_guards; repeat wp_step.
    all: (eapply wp_circuit_qubit; [exact Hqc|]).
    all: destruct (py_getitem (qubits c) qubit) as [q0|];
      [|unfold body_post; simpl; split_and!; try done; right; lia].
    all: repeat wp_step.
    all: (eapply wp_add_instruction; [exact Hqc|]); repeat wp_step.
    all: unfold body_post; simpl; split_and!; try done.
    all: eexists; split; [|done].
    all: eapply random_one_qubit; eauto; repeat constructor; done.
  - (* two qubits *)
    apply wp_bind, wp_random_choice_list; [done|].
    intros gate s3 Hgate. cbv beta iota zeta. apply wp_ret. cbv beta iota zeta.
    destruct (list_remove_spec qubit (seqZ 0 n)) as (l' & Hrem & Hlen & Hl').
    { by apply elem_of_seqZ_0. }
    { apply NoDup_seqZ. }
    rewrite length_seqZ in Hlen.
    assert (Hgate' := Hgate). unfold two_qubits in Hgate'.
    repeat (apply elem_of_cons in Hgate' as [->|Hgate']);
      [..|by apply elem_of_nil in Hgate']; eval_guards; repeat wp_step.
    all: unfold list_of_range; simpl range_stop; rewrite Hrem.
    all: apply wp_ret; cbv beta iota zeta.
    all: destruct l' as [|y l'];
      [eapply wp_eq; [apply random_choice_nil|];
       unfold body_post; simpl in *; split_and!; try done; left; lia|].
    all: apply wp_bind, wp_random_choice_list; [done|].
    all: intros second s4 [Hsecond Hne]%Hl'; apply elem_of_seqZ_0 in Hsecond.
    all: pose proof (list_getitem_cases (qubits c) second ltac:(lia)) as Hq1.
    all: repeat wp_step.
    all: (eapply wp_circuit_qubit; [exact Hqc|]).
    all: destruct (py_getitem (qubits c) qubit) as [q0|];
      [|unfold body_post; simpl; split_and!; try done; right; lia].
    all: repeat wp_step.
    all: simpl lift_option; repeat wp_step.
    all: (eapply wp_circuit_qubit; [exact Hqc|]).
    all: destruct (py_getitem (qubits c) second) as [q1|];
      [|unfold body_post; simpl; split_and!; try done; right; lia].
    all: repeat wp_step.
    all: (eapply wp_add_instruction; [exact Hqc|]); repeat wp_step.
    all: unfold body_post; simpl; split_and!; try done.
    all: eexists; split; [|done].
    all: eapply (random_two_qubits _ _ _ qubit second); eauto.
Qed.
End body.

Lemma with_instructions_nil c : with_instructions c [] = c.
Proof. destruct c. unfold with_instructions. simpl. by rewrite app_nil_r. Qed.

Lemma with_instructions_app c l1 l2 :
  with_instructions (with_instructions c l1) l2 = with_instructions c (l1 ++ l2).
Proof. unfold with_instructions. simpl. by rewrite app_assoc. Qed.

Section create.
Context `{RandomGen, Simulator}.
Implicit Types w : World.


Lemma create_circuit_spec n g seed qc c w :
  w_heap w !! qc = Some c →
  wp (create_circuit n g seed qc) (create_post n g seed qc c w) w.
Proof.
  intros Hqc. unfold create_circuit.
  apply wp_bind, wp_modify. apply wp_bind, wp_modify.
  pose proof (lookup_lt_Some _ _ _ Hqc) as Hlt.
  set (w0 := set_rng (rng_seed seed) (add_call _ w)).
  apply wp_bind. unfold for_range.
  apply (wp_for_range_from _
    (λ i (_ : option Z) w',
       w_sim w' = w_sim w ∧ w_stdout w' = w_stdout w ∧
       w_calls w' = w_calls w ++ [CallCreateCircuit n g seed qc] ∧
       ∃ gates,
         Forall (random_gate n (qubits c)) gates ∧
         w_heap w' = <[qc := with_instructions c gates]> (w_heap w) ∧
         Z.of_nat (length gates) = i)).
  - split_and!; [done..|]. exists []. split_and!; [done| |done].
    simpl. rewrite with_instructions_nil. by rewrite list_insert_id.
  - intros j sq w1 Hj (Hsim & Hout & Hcalls & gates & Hgates & Hheap & Hlen).
    eapply wp_mono;
      [|apply (create_circuit_body_spec n qc (with_instructions c gates))].
    + intros [sq'|e] w2 (Hsim2 & Hout2 & Hcalls2 & Hr).
      * destruct Hr as (i & Hi & Hheap2).
        split_and!; [congruence..|].
        exists (gates ++ [i]). split_and!.
        -- apply Forall_app. split; [done|]. by apply Forall_singleton.
        -- rewrite Hheap2, Hheap, list_insert_insert_eq.
           by rewrite with_instructions_app.
        -- rewrite length_app. simpl. lia.
      * destruct Hr as (-> & Hheap2 & Hwhy).
        unfold create_post. split_and!; [congruence..|].
        exists gates. split_and!; [done|congruence|done|lia|done].
    + rewrite Hheap. by apply list_lookup_insert_eq.
  - intros sq w1 (Hsim & Hout & Hcalls & gates & Hgates & Hheap & Hlen).
    apply wp_ret. unfold create_post. split_and!; [done..|].
    exists gates. split_and!; [done..|lia].
Qed.
End create.

Section determinism.
Context `{RandomGen, Simulator}.
Implicit Types w : World.


Section rules.
Context (qc1 qc2 : loc).

Lemma rel_ret {A} (a : A) : rel qc1 qc2 (mret a) (mret a).
Proof. by intros w1 w2 Hw. Qed.

Lemma rel_raise {A} e : rel qc1 qc2 (@raise World A e) (raise e).
Proof. by intros w1 w2 Hw. Qed.

Lemma rel_lift_option {A} e (o : option A) :
  rel qc1 qc2 (lift_option e o) (lift_option e o).
Proof. destruct o; [apply rel_ret|apply rel_raise]. Qed.

Lemma rel_bind {A B} (m1 m2 : Py World A) (k1 k2 : A → Py World B) :
  rel qc1 qc2 m1 m2 →
  (∀ a, rel qc1 qc2 (k1 a) (k2 a)) →
  rel qc1 qc2 (m1 ≫= k1) (m2 ≫= k2).
Proof.
  intros Hm Hk w1 w2 Hw. destruct (Hm w1 w2 Hw) as [Hr Hw'].
  unfold mbind, py_bind.
  destruct (m1 w1) as [[a1|e1] w1'], (m2 w2) as [[a2|e2] w2'];
    simpl in *; try done.
  - injection Hr as ->. by apply Hk.
  - by injection Hr as ->.
Qed.

Lemma rel_random_choice {T A} `{PySequence T A} (seq : T) :
  rel qc1 qc2 (random_choice seq) (random_choice seq).
Proof.
  intros w1 w2 [Hrng Hheap]. unfold random_choice.
  case_bool_decide; [done|]. rewrite Hrng.
  destruct (rng_randbelow _ _) as [i s].
  by destruct (py_getitem seq i).
Qed.

Lemma rel_random_uniform a b :
  rel qc1 qc2 (random_uniform a b) (random_uniform a b).
Proof.
  intros w1 w2 [Hrng Hheap]. unfold random_uniform. rewrite Hrng.
  by destruct (rng_uniform _ _ _) as [x s].
Qed.

Lemma rel_read_circuit :
  rel qc1 qc2 (read_circuit qc1) (read_circuit qc2).
Proof.
  intros w1 w2 Hw. pose proof Hw as [Hrng Hheap].
  unfold read_circuit. rewrite Hheap.
  by destruct (w_heap w2 !! qc2).
Qed.

Lemma rel_circuit_qubit i :
  rel qc1 qc2 (circuit_qubit qc1 i) (circuit_qubit qc2 i).
Proof.
  apply rel_bind; [apply rel_read_circuit|]. intros c.
  apply rel_lift_option.
Qed.

Lemma rel_add_instruction i :
  rel qc1 qc2 (add_instruction qc1 i) (add_instruction qc2 i).
Proof.
  intros w1 w2 [Hrng Hheap]. unfold add_instruction, read_circuit.
  unfold mbind, py_bind. rewrite Hheap.
  destruct (w_heap w2 !! qc2) as [c|] eqn:Hc2; [|split; [done|split; [done|simpl; congruence]]].
  simpl. split; [done|]. split; [done|]. simpl.
  rewrite !list_lookup_insert_eq; [done|..];
    by eapply lookup_lt_Some.
Qed.

Lemma rel_for_range_from {X} (body1 body2 : Z → X → Py World X) n :
  (∀ i x, rel qc1 qc2 (body1 i x) (body2 i x)) →
  ∀ i x, rel qc1 qc2 (for_range_from i n body1 x)
                     (for_range_from i n body2 x).
Proof.
  intros Hbody. induction n as [|n IH]; intros i x; simpl.
  - apply rel_ret.
  - apply rel_bind; [apply Hbody|]. intros x'. apply IH.
Qed.
End rules.

Ltac rel_step :=
  lazymatch goal with
  | |- rel _ _ (mret _) (mret _) => apply rel_ret
  | |- rel _ _ (mbind _ _) (mbind _ _) => apply rel_bind; [|intros ?]
  | |- rel _ _ (if ?b then _ else _) (if ?b then _ else _) => destruct b
  | |- rel _ _ (let '(_, _) := ?x in _) (let '(_, _) := ?x in _) =>
      destruct x
  | |- rel _ _ (random_choice _) (random_choice _) =>
      apply rel_random_choice
  | |- rel _ _ (random_uniform _ _) (random_uniform _ _) =>
      apply rel_random_uniform
  | |- rel _ _ (lift_option _ _) (lift_option _ _) =>
      apply rel_lift_option
  | |- rel _ _ (circuit_qubit _ _) (circuit_qubit _ _) =>
      apply rel_circuit_qubit
  | |- rel _ _ (circuit_append _ _ _) (circuit_append _ _ _) =>
      apply rel_add_instruction
  end.

Lemma rel_create_circuit_body n qc1 qc2 sq :
  rel qc1 qc2 (create_circuit_body n qc1 sq) (create_circuit_body n qc2 sq).
Proof. unfold create_circuit_body. repeat rel_step. Qed.

(** From any two worlds that hold the same circuit, the loop of
    [create_circuit] runs the same way once the generator is seeded. *)
Lemma create_circuit_agree n g seed qc1 qc2 w1 w2 :
  w_heap w1 !! qc1 = w_heap w2 !! qc2 →
  let r1 := create_circuit n g seed qc1 w1 in
  let r2 := create_circuit n g seed qc2 w2 in
  agree qc1 qc2 r1.2 r2.2 ∧
  match r1.1, r2.1 with
  | Ok a, Ok b => a = qc1 ∧ b = qc2
  | Raise e1, Raise e2 => e1 = e2
  | _, _ => False
  end.
Proof.
  intros Hheap. unfold create_circuit.
  set (v1 := set_rng (rng_seed seed)
               (add_call (CallCreateCircuit n g seed qc1) w1)).
  set (v2 := set_rng (rng_seed seed)
               (add_call (CallCreateCircuit n g seed qc2) w2)).
  assert (agree qc1 qc2 v1 v2) as Hv by done.
  pose proof (rel_for_range_from qc1 qc2
    (λ _, create_circuit_body n qc1) (λ _, create_circuit_body n qc2)
    (Z.to_nat g) (λ _ sq, rel_create_circuit_body n qc1 qc2 sq) 0 None
    v1 v2 Hv) as [Hr Hw].
  unfold for_range, mbind, py_bind, modify, log_call, random_seed. simpl.
  fold v1 v2.
  destruct (for_range_from 0 _ _ None v1) as [[a1|e1] w1'],
           (for_range_from 0 _ _ None v2) as [[a2|e2] w2'];
    simpl in *; try done.
  by injection Hr as ->.
Qed.
End determinism.

Lemma random_gate_as_specified n qs i : random_gate n qs i → gate_as_specified i.
Proof.
  intros [name params a qa Hname Hlen Hparams _ _
         |name a b qa qb Hname _ _ _ _ _].
  - exists (mkGate name 1 params), [qa]. split_and!; auto.
  - exists (mkGate name 2 []), [qa; qb]. split_and!; auto.
    unfold two_qubits in Hname.
    repeat (apply elem_of_cons in Hname as [->|Hname]); try done.
    by apply elem_of_nil in Hname.
Qed.

Lemma one_qubit_not_two name : name ∈ one_qubit → name ∈ two_qubits → False.
Proof.
  unfold one_qubit, two_qubits. intros H1 H2.
  repeat (apply elem_of_cons in H2 as [->|H2]);
    [..|by apply elem_of_nil in H2];
    repeat (apply elem_of_cons in H1 as [?|H1]); try done;
    by apply elem_of_nil in H1.
Qed.

Lemma for_range_from_raise {W X} (body : Z → X → Py W X) k m :
  ∀ i x (w : W) x' w' e w'',
    for_range_from i k body x w = (Ok x', w') →
    body (i + Z.of_nat k) x' w' = (Raise e, w'') →
    for_range_from i (k + S m) body x w = (Raise e, w'').
Proof.
  induction k as [|k IH]; intros i x w x' w' e w'' Hk Hbody.
  - injection Hk as -> ->. simpl.
    replace (i + Z.of_nat 0) with i in Hbody by lia.
    by erewrite bind_raise.
  - simpl in *. unfold mbind, py_bind in *.
    destruct (body i x w) as [[y|e'] v]; [|done].
    eapply IH; [done|].
    by replace (i + 1 + Z.of_nat k) with (i + Z.of_nat (S k)) by lia.
Qed.

Section create_facts.
Context `{RandomGen, Simulator}.
Implicit Types w : World.


Lemma two_qubit_kind_on_one_qubit_raises qc sq w :
  draws_two_qubit_kind 1 w →
  ∃ w', create_circuit_body 1 qc sq w = (Raise IndexError, w').
Proof.
  intros (q & w1 & w2 & Hq & Hkind).
  assert (q = 0) as ->.
  { destruct (random_choice_range 1 w) as (x & s & Hx & _ & Hc); [lia|].
    rewrite Hc in Hq. injection Hq as <- _. lia. }
  unfold create_circuit_body.
  erewrite bind_ok by exact Hq. cbv beta iota zeta.
  erewrite bind_ok by exact Hkind. cbv beta iota zeta.
  eval_guards.
  destruct (random_choice_list two_qubits w2) as (gate & s & Hgate & Hc);
    [done|].
  erewrite bind_ok; [|by erewrite bind_ok by exact Hc].
  cbv beta iota zeta.
  unfold two_qubits in Hgate.
  repeat (apply elem_of_cons in Hgate as [->|Hgate]);
    [..|by apply elem_of_nil in Hgate]; eval_guards; eauto.
Qed.

(** C3. Called on a circuit object [qc] whose value is [c],
    [create_circuit(num_qubits, number_of_gates, seed, qc)] appends gate
    instructions to [qc] and nothing else.  When it returns, it returns
    [qc] and has appended exactly [number_of_gates] gates (none for a
    negative count).  Every appended gate is of the one-qubit kind with a
    name from [one_qubit] or of the two-qubit kind with a name from
    [two_qubits]; it carries one parameter if it is [u1], two if [u2], three
    if [u3], none otherwise, and every parameter lies between 0 and pi.
    The call can only raise [IndexError], and only when [num_qubits] is
    below 2 or the circuit has fewer than [num_qubits] qubits. *)
Theorem create_circuit_appends_random_gates n g seed qc c w :
  w_heap w !! qc = Some c →
  ∃ gates,
    w_heap (create_circuit n g seed qc w).2
      = <[qc := with_instructions c gates]> (w_heap w) ∧
    Forall gate_as_specified gates ∧
    match (create_circuit n g seed qc w).1 with
    | Ok qc' => qc' = qc ∧ Z.of_nat (length gates) = Z.max 0 g
    | Raise e =>
        e = IndexError ∧ (n < 2 ∨ Z.of_nat (length (qubits c)) < n)
    end.
Proof.
  intros Hqc.
  destruct (create_circuit_spec n g seed qc c w Hqc)
    as (_ & _ & _ & gates & Hgates & Hheap & Hr).
  exists gates. split_and!; [done| |].
  - eapply Forall_impl; [done|]. apply random_gate_as_specified.
  - destruct (create_circuit n g seed qc w).1 as [qc'|e];
      [by destruct Hr|by destruct Hr as (? & ? & ?)].
Qed.

(** C8. [create_circuit] is a function of its arguments and of the circuit
    it is given: two calls with the same [num_qubits], [number_of_gates]
    and [seed] on circuit objects of equal value append the same sequence of
    gates (names, qubits and parameters, in order) and end the same way,
    whatever state the generator and the rest of the world were in before,
    because the generator is seeded first. *)
Theorem create_circuit_deterministic n g seed qc1 qc2 c w1 w2 :
  w_heap w1 !! qc1 = Some c →
  w_heap w2 !! qc2 = Some c →
  ∃ gates,
    w_heap (create_circuit n g seed qc1 w1).2 !! qc1
      = Some (with_instructions c gates) ∧
    w_heap (create_circuit n g seed qc2 w2).2 !! qc2
      = Some (with_instructions c gates) ∧
    match (create_circuit n g seed qc1 w1).1,
          (create_circuit n g seed qc2 w2).1 with
    | Ok a, Ok b => a = qc1 ∧ b = qc2
    | Raise e1, Raise e2 => e1 = e2
    | _, _ => False
    end.
Proof.
  intros Hqc1 Hqc2.
  destruct (create_circuit_agree n g seed qc1 qc2 w1 w2) as [[_ Hheap] Hr];
    [congruence|].
  destruct (create_circuit_spec n g seed qc1 c w1 Hqc1)
    as (_ & _ & _ & gates & _ & Hheap1 & _).
  exists gates.
  assert (w_heap (create_circuit n g seed qc1 w1).2 !! qc1
          = Some (with_instructions c gates)) as Hfinal.
  { rewrite Hheap1. apply list_lookup_insert_eq. by eapply lookup_lt_Some. }
  split_and!; [done|congruence|done].
Qed.

(** C9. Every two-qubit gate ([cx], [cz] or [swap]) that [create_circuit]
    appends acts on the qubits at two different positions below
    [num_qubits], hence on two distinct qubits of a circuit whose qubits are
    pairwise distinct.  With [num_qubits = 1], the call raises [IndexError]
    as soon as a turn of the loop draws the kind ['two qubits']. *)
Theorem two_qubit_gates_act_on_distinct_qubits n g seed qc c w :
  w_heap w !! qc = Some c →
  (∃ gates,
     w_heap (create_circuit n g seed qc w).2
       = <[qc := with_instructions c gates]> (w_heap w) ∧
     ∀ gate qargs,
       GateInstr gate qargs ∈ gates →
       gate_num_qubits gate = 2 ∨ gate_name gate ∈ two_qubits →
       ∃ a b qa qb,
         a ≠ b ∧ 0 ≤ a < n ∧ 0 ≤ b < n ∧
         qubits c !! Z.to_nat a = Some qa ∧
         qubits c !! Z.to_nat b = Some qb ∧
         qargs = [qa; qb] ∧
         (NoDup (qubits c) → qa ≠ qb)) ∧
  (n = 1 →
   ∀ k sq wk,
     Z.of_nat k < g →
     for_range_from 0 k (λ _, create_circuit_body n qc) None
       (loop_start n g seed qc w) = (Ok sq, wk) →
     draws_two_qubit_kind n wk →
     (create_circuit n g seed qc w).1 = Raise IndexError).
Proof.
  intros Hqc. split.
  - destruct (create_circuit_spec n g seed qc c w Hqc)
      as (_ & _ & _ & gates & Hgates & Hheap & _).
    exists gates. split; [done|].
    intros gate qargs Hin Htwo.
    rewrite Forall_forall in Hgates. apply Hgates in Hin.
    inversion Hin as [name params a qa Hname _ _ _ _
                     |name a b qa qb Hname Ha Hb Hab Hqa Hqb]; subst.
    + simpl in Htwo. destruct Htwo as [?|Htwo]; [done|].
      destruct (one_qubit_not_two _ Hname Htwo).
    + exists a, b, qa, qb. split_and!; try done; try lia.
      intros Hnd ->.
      pose proof (NoDup_lookup _ _ _ _ Hnd Hqa Hqb). lia.
  - intros -> k sq wk Hk Hloop Hdraw.
    destruct (two_qubit_kind_on_one_qubit_raises qc sq wk Hdraw)
      as [w' Hbody].
    pose proof (for_range_from_raise (λ _, create_circuit_body 1 qc) k
                  (Z.to_nat g - k - 1) 0 None _ sq wk IndexError w'
                  Hloop Hbody) as Hfor.
    replace (k + S (Z.to_nat g - k - 1))%nat with (Z.to_nat g) in Hfor
      by lia.
    unfold create_circuit, for_range.
    unfold loop_start in Hfor.
    unfold mbind, py_bind, log_call, random_seed, modify. simpl.
    by rewrite Hfor.
Qed.
End create_facts.

(** The three theorems at work on the generator [Concrete.lcg]. *)

Lemma create_circuit_appends_random_gates_witness :
  let w := Concrete.world_of 1 [empty_circuit 3] in
  w_heap w !! 0%nat = Some (empty_circuit 3) ∧
  ∃ gates,
    w_heap (create_circuit 3 4 7 0%nat w).2
      = <[0%nat := with_instructions (empty_circuit 3) gates]> (w_heap w) ∧
    Forall gate_as_specified gates ∧
    match (create_circuit 3 4 7 0%nat w).1 with
    | Ok qc' => qc' = 0%nat ∧ Z.of_nat (length gates) = Z.max 0 4
    | Raise e =>
        e = IndexError ∧
        (3 < 2 ∨ Z.of_nat (length (qubits (empty_circuit 3))) < 3)
    end.
Proof.
  intros w. split; [reflexivity|].
  apply (create_circuit_appends_random_gates 3 4 7 0%nat (empty_circuit 3) w).
  reflexivity.
Defined.

Lemma create_circuit_deterministic_witness :
  let w1 := Concrete.world_of 1 [empty_circuit 2] in
  let w2 := Concrete.world_of 5 [empty_circuit 4; empty_circuit 2] in
  w_heap w1 !! 0%nat = Some (empty_circuit 2) ∧
  w_heap w2 !! 1%nat = Some (empty_circuit 2) ∧
  ∃ gates,
    w_heap (create_circuit 2 6 11 0%nat w1).2 !! 0%nat
      = Some (with_instructions (empty_circuit 2) gates) ∧
    w_heap (create_circuit 2 6 11 1%nat w2).2 !! 1%nat
      = Some (with_instructions (empty_circuit 2) gates) ∧
    match (create_circuit 2 6 11 0%nat w1).1,
          (create_circuit 2 6 11 1%nat w2).1 with
    | Ok a, Ok b => a = 0%nat ∧ b = 1%nat
    | Raise e1, Raise e2 => e1 = e2
    | _, _ => False
    end.
Proof.
  intros w1 w2. split_and!; [reflexivity..|].
  apply (create_circuit_deterministic 2 6 11 0%nat 1%nat (empty_circuit 2)
           w1 w2); reflexivity.
Defined.

Lemma two_qubit_gates_act_on_distinct_qubits_witness :
  let w := Concrete.world_of 1 [empty_circuit 1] in
  w_heap w !! 0%nat = Some (empty_circuit 1) ∧
  (create_circuit 1 3 1 0%nat w).1 = Raise IndexError.
Proof.
  intros w. split; [reflexivity|].
  pose (turn := for_range_from 0 1 (λ _, create_circuit_body 1 0%nat) None
                  (loop_start 1 3 1 0%nat w)).
  pose (wk := turn.2).
  pose (w1 := (random_choice (Range 1) wk).2).
  pose (w2 := (random_choice kind_of_gate w1).2).
  apply (proj2 (two_qubit_gates_act_on_distinct_qubits 1 3 1 0%nat
                  (empty_circuit 1) w eq_refl) eq_refl 1%nat None wk).
  - reflexivity.
  - reflexivity.
  - exists 0, w1, w2. split; reflexivity.
Defined.

(** * Floats *)










(** * The comparison of the two snapshots *)




Section comparison.
Context `{RandomGen, Simulator} (str_float : float → string).
Implicit Types w : World.


Lemma length_report i ps :
  length (report str_float i ps) = length (filter (λ p, mismatch threshold p) ps).
Proof.
  revert i. induction ps as [|p ps IH]; intros i; [done|].
  simpl. rewrite filter_cons, length_app, IH.
  by destruct (mismatch threshold p).
Qed.

Lemma add_lines_nil w : add_lines [] w = w.
Proof. destruct w. unfold add_lines. simpl. by rewrite app_nil_r. Qed.

Lemma add_lines_app l1 l2 w :
  add_lines l2 (add_lines l1 w) = add_lines (l1 ++ l2) w.
Proof. unfold add_lines. simpl. by rewrite app_assoc. Qed.

Lemma compare_amplitudes_at tn ex i errors w t e :
  0 ≤ i →
  tn !! Z.to_nat i = Some t → ex !! Z.to_nat i = Some e →
  compare_amplitudes str_float tn ex i errors w =
    if mismatch threshold (t, e)
    then (Ok (errors + 1), add_lines [diff_line str_float i (t, e)] w)
    else (Ok errors, w).
Proof.
  intros Hi Ht He. unfold compare_amplitudes.
  erewrite bind_ok; [|by rewrite list_getitem_nonneg, Ht by done].
  erewrite bind_ok; [|by rewrite list_getitem_nonneg, He by done].
  unfold mismatch, diff0, diff1. simpl.
  by destruct (_ || _).
Qed.

Lemma compare_loop tn ex n : ∀ i errors w,
  0 ≤ i →
  (Z.to_nat i + n ≤ length tn)%nat →
  (Z.to_nat i + n ≤ length ex)%nat →
  let ps := take n (drop (Z.to_nat i) (zip tn ex)) in
  for_range_from i n (compare_amplitudes str_float tn ex) errors w =
    (Ok (errors + Z.of_nat (length (filter (λ p, mismatch threshold p) ps))),
     add_lines (report str_float i ps) w).
Proof.
  induction n as [|n IH]; intros i errors w Hi Htn Hex;
    cbn [for_range_from].
  - simpl. rewrite add_lines_nil. unfold mret, py_ret. do 2 f_equal. lia.
  - destruct (lookup_lt_is_Some_2 tn (Z.to_nat i)) as [t Ht]; [lia|].
    destruct (lookup_lt_is_Some_2 ex (Z.to_nat i)) as [e He]; [lia|].
    assert (zip tn ex !! Z.to_nat i = Some (t, e)) as Hp.
    { rewrite lookup_zip_with. by rewrite Ht, He. }
    rewrite (drop_S _ _ _ Hp). cbn [take report].
    unfold mbind, py_bind.
    rewrite (compare_amplitudes_at tn ex i errors w t e) by done.
    replace (S (Z.to_nat i)) with (Z.to_nat (i + 1)) by lia.
    destruct (mismatch threshold (t, e)) eqn:Hm; rewrite IH by lia.
    + rewrite filter_cons_True by by rewrite Hm.
      rewrite add_lines_app. cbn [length app]. do 2 f_equal. lia.
    + rewrite filter_cons_False by (rewrite Hm; simpl; tauto). done.
Qed.
End comparison.

Section comparison_verdict.
Context `{RandomGen, Simulator} (str_float : float → string).
Implicit Types w : World.


Lemma verdict_passed errors : verdict errors = "test passed" ↔ errors = 0%nat.
Proof. unfold verdict. case_decide; [done|]. split; [|done]. discriminate. Qed.

Lemma compare_statevectors_spec n svTN svES tn tns ex exs w :
  0 ≤ n →
  svTN !! "my_sv" = Some (tn :: tns) →
  svES !! "my_sv" = Some (ex :: exs) →
  2 ^ n ≤ Z.of_nat (length tn) →
  2 ^ n ≤ Z.of_nat (length ex) →
  let pairs := take (Z.to_nat (2 ^ n)) (zip tn ex) in
  let errors := length (filter (λ p, mismatch threshold p) pairs) in
  compare_statevectors str_float n svTN svES w =
    (Ok tt,
     add_lines (report str_float 0 pairs ++ [verdict errors; "-----------"]) w).
Proof.
  intros Hn HTN HES Htn Hex pairs errors. unfold compare_statevectors.
  rewrite bool_decide_eq_true_2 by done.
  erewrite bind_ok;
    [|erewrite bind_ok; [|by rewrite HTN]; by rewrite list_getitem_nonneg].
  erewrite bind_ok;
    [|erewrite bind_ok; [|by rewrite HES]; by rewrite list_getitem_nonneg].
  erewrite bind_ok by done.
  unfold for_range.
  erewrite bind_ok; [|apply compare_loop; [done|lia..]].
  change (Z.to_nat 0) with 0%nat. rewrite drop_0. fold pairs. fold errors.
  rewrite Z.add_0_l.
  unfold print, modify, mbind, py_bind. unfold verdict.
  case_bool_decide; case_decide; try lia; simpl;
    unfold add_lines, add_stdout; simpl; by rewrite <- !app_assoc.
Qed.

End comparison_verdict.



Section run.
Context `{RandomGen, Simulator} (str_float : float → string).
Implicit Types w : World.


Lemma wp_execute_single qc c opts shots Q w :
  w_heap w !! qc = Some c →
  (∀ r s, Q (Ok r) (set_sim s (add_call (CallExecute [qc] [c] opts shots) w))) →
  wp (execute [qc] opts shots) Q w.
Proof.
  intros Hqc HQ. unfold execute. apply wp_bind. simpl py_map.
  apply wp_bind. eapply wp_read_circuit; [done|].
  apply wp_bind, wp_ret, wp_ret.
  apply wp_bind, wp_modify.
  unfold wp, simulate. simpl w_sim.
  destruct (sim_execute _ _ _ _) as [r s]. apply HQ.
Qed.

(** The comparison only prints. *)
Lemma compare_statevectors_frame n svTN svES w :
  let w' := (compare_statevectors str_float n svTN svES w).2 in
  w_calls w' = w_calls w ∧ w_heap w' = w_heap w.
Proof.
  set (Q := λ (_ : outcome unit) w', w_calls w' = w_calls w ∧ w_heap w' = w_heap w).
  change (wp (compare_statevectors str_float n svTN svES) Q w).
  assert (∀ A (r : outcome A) v, w_calls v = w_calls w ∧ w_heap v = w_heap w →
            (λ _ w', w_calls w' = w_calls w ∧ w_heap w' = w_heap w) r v)
    as Hkeep by done.
  unfold compare_statevectors.
  apply wp_bind, wp_bind, wp_lift_option.
  destruct (svTN !! "my_sv") as [l1|]; [|done].
  apply wp_lift_option. destruct (py_getitem l1 0) as [tn|]; [|done].
  apply wp_bind, wp_bind, wp_lift_option.
  destruct (svES !! "my_sv") as [l2|]; [|done].
  apply wp_lift_option. destruct (py_getitem l2 0) as [ex|]; [|done].
  apply wp_bind, wp_lift_option.
  case_bool_decide; [|done].
  apply wp_bind. unfold for_range.
  apply (wp_for_range_from _
           (λ _ _ w', w_calls w' = w_calls w ∧ w_heap w' = w_heap w));
    [done| |].
  - intros j errors v _ Hv. unfold compare_amplitudes.
    apply wp_bind, wp_lift_option.
    destruct (py_getitem tn j) as [t|]; [|done].
    apply wp_bind, wp_lift_option.
    destruct (py_getitem ex j) as [e|]; [|done].
    destruct (_ || _); [|by apply wp_ret].
    apply wp_bind, wp_modify, wp_ret. done.
  - intros errors v Hv. apply wp_bind.
    case_bool_decide; apply wp_modify, wp_modify; done.
Qed.

(** The calls a run makes, however it ends. *)
Lemma random_statevector_test_calls n g seed w :
  let r := random_statevector_test str_float n g seed w in
  let qc := length (w_heap w) in
  ∃ gates execs,
    w_calls r.2
      = w_calls w ++ CallCreateCircuit n g (used_seed seed w) qc :: execs ∧
    Forall (random_gate n (qubits (empty_circuit n))) gates ∧
    execs `prefix_of`
      [execution qc (measured_circuit n gates) "statevector";
       execution qc (measured_circuit n gates) "tensor_network"] ∧
    (execs ≠ [] → w_heap r.2 !! qc = Some (measured_circuit n gates)) ∧
    (r.1 = Ok tt →
     execs = [execution qc (measured_circuit n gates) "statevector";
              execution qc (measured_circuit n gates) "tensor_network"]).
Proof.
  intros r qc.
  set (Q := λ (o : outcome unit) w',
    ∃ gates execs,
      w_calls w'
        = w_calls w ++ CallCreateCircuit n g (used_seed seed w) qc :: execs ∧
      Forall (random_gate n (qubits (empty_circuit n))) gates ∧
      execs `prefix_of`
        [execution qc (measured_circuit n gates) "statevector";
         execution qc (measured_circuit n gates) "tensor_network"] ∧
      (execs ≠ [] → w_heap w' !! qc = Some (measured_circuit n gates)) ∧
      (o = Ok tt →
       execs = [execution qc (measured_circuit n gates) "statevector";
                execution qc (measured_circuit n gates) "tensor_network"])).
  change (wp (random_statevector_test str_float n g seed) Q w).
  unfold random_statevector_test.
  apply wp_bind.
  (* line 16-17 *)
  assert (∃ s, wp (if bool_decide (seed = 100000000)
                   then random_choice (Range seed) else mret seed)
                 (λ o w', o = Ok (used_seed seed w) ∧ w' = set_rng s w) w)
    as [s0 Hseed].
  { unfold used_seed. case_bool_decide as Hs.
    - subst seed.
      destruct (random_choice_range 100000000 w) as (x & s & _ & Hx & Hc);
        [lia|].
      exists s. eapply wp_eq; [done|]. by rewrite Hx.
    - exists (w_rng w). apply wp_ret. split; [done|]. by destruct w. }
  eapply wp_mono; [|exact Hseed].
  intros o w1 [-> ->]. cbv beta iota zeta.
  apply wp_bind, wp_modify. apply wp_bind.
  unfold wp at 1. unfold new_circuit. cbn [fst snd].
  set (w1 := set_heap _ _).
  assert (w_heap w1 !! qc = Some (empty_circuit n)) as Hqc.
  { subst w1 qc. simpl. by rewrite list_lookup_middle. }
  apply wp_bind.
  eapply wp_mono; [|apply (create_circuit_spec _ _ _ _ _ _ Hqc)].
  intros [qc'|e] w2 (_ & _ & Hcalls & gates & Hgates & Hheap & Hr); last first.
  { exists [], []. split_and!; [by rewrite Hcalls|done| |done|done].
    apply prefix_nil. }
  destruct Hr as [-> _].
  assert (w_heap w2 !! qc = Some (with_instructions (empty_circuit n) gates))
    as Hqc2.
  { rewrite Hheap. apply list_lookup_insert_eq. by eapply lookup_lt_Some. }
  apply wp_bind. eapply wp_add_instruction; [done|].
  set (w3 := set_heap _ w2).
  assert (w_heap w3 !! qc = Some (measured_circuit n gates)) as Hqc3.
  { subst w3. simpl. rewrite with_instructions_app.
    apply list_lookup_insert_eq. by eapply lookup_lt_Some. }
  apply wp_bind. eapply wp_execute_single; [done|].
  intros result_ES s1.
  set (w4 := set_sim _ _).
  assert (w_calls w4 = w_calls w ++
            CallCreateCircuit n g (used_seed seed w) qc
            :: [execution qc (measured_circuit n gates) "statevector"])
    as Hcalls4.
  { subst w4 w3. simpl. rewrite Hcalls. simpl. by rewrite <- app_assoc. }
  assert (w_heap w4 !! qc = Some (measured_circuit n gates)) as Hqc4 by done.
  clearbody w4.
  apply wp_bind, wp_lift_option.
  destruct (py_getitem (results result_ES) 0) as [res_ES_0|]; last first.
  { exists gates, [execution qc (measured_circuit n gates) "statevector"].
    split_and!; [done..| |done|done]. by apply prefix_cons, prefix_nil. }
  apply wp_bind. eapply wp_execute_single; [exact Hqc4|].
  intros result_TN s2.
  set (w5 := set_sim _ _).
  assert (w_calls w5 = w_calls w ++
            CallCreateCircuit n g (used_seed seed w) qc
            :: [execution qc (measured_circuit n gates) "statevector";
                execution qc (measured_circuit n gates) "tensor_network"])
    as Hcalls5.
  { subst w5. simpl. rewrite Hcalls4. by rewrite <- app_assoc. }
  assert (w_heap w5 !! qc = Some (measured_circuit n gates)) as Hqc5 by done.
  clearbody w5.
  apply wp_bind, wp_lift_option.
  destruct (py_getitem (results result_TN) 0) as [res_TN_0|].
  - destruct (compare_statevectors_frame n
                (snapshots_statevector res_TN_0)
                (snapshots_statevector res_ES_0) w5) as [Hc Hh].
    exists gates, [execution qc (measured_circuit n gates) "statevector";
                   execution qc (measured_circuit n gates) "tensor_network"].
    split_and!; [by rewrite Hc|done|done|by rewrite Hh|done].
  - exists gates, [execution qc (measured_circuit n gates) "statevector";
                   execution qc (measured_circuit n gates) "tensor_network"].
    split_and!; done.
Qed.
End run.

Section run_facts.
Context `{RandomGen, Simulator} (str_float : float → string).
Implicit Types w : World.

(** C10. [random_statevector_test] calls [create_circuit] once, and never
    with the seed 100000000: when its [seed] argument is 100000000, the seed
    passed on is what [random.choice(range(100000000))] draws, which is
    below 100000000; any other [seed] is passed on as it is. *)
Theorem default_seed_is_redrawn n g seed w :
  let r := random_statevector_test str_float n g seed w in
  ∃ s execs,
    w_calls r.2
      = w_calls w ++ CallCreateCircuit n g s (length (w_heap w)) :: execs ∧
    Forall (λ c, ∃ circuits values backend_options shots,
              c = CallExecute circuits values backend_options shots) execs ∧
    s ≠ 100000000 ∧
    (seed = 100000000 →
     s = (rng_randbelow 100000000 (w_rng w)).1 ∧ 0 ≤ s < 100000000) ∧
    (seed ≠ 100000000 → s = seed).
Proof.
  intros r.
  destruct (random_statevector_test_calls str_float n g seed w)
    as (gates & execs & Hcalls & _ & Hprefix & _).
  exists (used_seed seed w), execs.
  pose proof (rng_randbelow_range 100000000 (w_rng w) ltac:(lia)) as Hs.
  split_and!.
  - done.
  - destruct Hprefix as [rest Hrest].
    assert (Forall (λ c, ∃ circuits values backend_options shots,
              c = CallExecute circuits values backend_options shots)
              (execs ++ rest)) as Hall.
    { rewrite <- Hrest. repeat constructor; unfold execution; eauto. }
    by apply Forall_app in Hall as [? _].
  - unfold used_seed. case_bool_decide; lia.
  - intros ->. unfold used_seed. rewrite bool_decide_eq_true_2 by done. done.
  - intros Hne. unfold used_seed. by rewrite bool_decide_eq_false_2.
Qed.
End run_facts.

(** * Further properties of [create_circuit] *)

Section create_extras.
Context `{RandomGen, Simulator}.
Implicit Types w : World.

Lemma create_circuit_range_empty n g seed qc w :
  n ≤ 0 → 0 < g →
  create_circuit n g seed qc w
    = (Raise IndexError, loop_start n g seed qc w).
Proof.
  intros Hn Hg. unfold create_circuit, for_range.
  destruct (Z.to_nat g) as [|k] eqn:Hk; [lia|].
  unfold mbind at 1 2 3, py_bind, log_call, random_seed, modify.
  cbn [for_range_from]. fold (loop_start n g seed qc w).
  unfold create_circuit_body.
  erewrite bind_raise; [done|].
  erewrite bind_raise; [done|].
  by apply random_choice_range_empty.
Qed.

(** X1. [create_circuit] touches nothing but the circuit object it is
    given and the generator: it prints nothing, leaves the simulator and
    every other circuit object as they were, and creates no circuit object.
    Of the circuit it is given it keeps the name, the qubits, the classical
    bits and the instructions already there: it only appends. *)
Theorem create_circuit_frame n g seed qc c w :
  w_heap w !! qc = Some c →
  let w' := (create_circuit n g seed qc w).2 in
  w_stdout w' = w_stdout w ∧
  w_sim w' = w_sim w ∧
  length (w_heap w') = length (w_heap w) ∧
  (∀ qc', qc' ≠ qc → w_heap w' !! qc' = w_heap w !! qc') ∧
  ∃ c',
    w_heap w' !! qc = Some c' ∧
    qc_name c' = qc_name c ∧ qubits c' = qubits c ∧ clbits c' = clbits c ∧
    data c `prefix_of` data c'.
Proof.
  intros Hqc w'.
  destruct (create_circuit_spec n g seed qc c w Hqc)
    as (Hsim & Hout & _ & gates & _ & Hheap & _).
  fold w' in Hsim, Hout, Hheap.
  split_and!; [done|done|by rewrite Hheap, length_insert| |].
  - intros qc' Hne. rewrite Hheap. by apply list_lookup_insert_ne.
  - exists (with_instructions c gates). split_and!; try done.
    + rewrite Hheap. apply list_lookup_insert_eq. by eapply lookup_lt_Some.
    + by exists gates.
Qed.

(** X2. Every instruction [create_circuit] appends is a gate on as many
    qubits as the [num_qubits] of the gate says, each of them a qubit of the
    circuit at a position from 0 to [num_qubits - 1] of the call. *)
Theorem appended_gates_fit_their_arity n g seed qc c w :
  w_heap w !! qc = Some c →
  ∃ gates,
    w_heap (create_circuit n g seed qc w).2
      = <[qc := with_instructions c gates]> (w_heap w) ∧
    Forall (λ i, ∃ gate qargs,
              i = GateInstr gate qargs ∧
              Z.of_nat (length qargs) = gate_num_qubits gate ∧
              Forall (λ q, ∃ a, 0 ≤ a < n ∧ qubits c !! Z.to_nat a = Some q)
                qargs) gates.
Proof.
  intros Hqc.
  destruct (create_circuit_spec n g seed qc c w Hqc)
    as (_ & _ & _ & gates & Hgates & Hheap & _).
  exists gates. split; [done|].
  eapply Forall_impl; [done|].
  intros i [name params a qa _ _ _ Ha Hqa|name a b qa qb _ Ha Hb _ Hqa Hqb].
  - eexists _, _. split_and!; [done..|]. repeat constructor; eauto.
  - eexists _, _. split_and!; [done..|]. repeat constructor; eauto.
Qed.

(** X3. With [num_qubits <= 0] and at least one gate asked for,
    [create_circuit] raises [IndexError] in the first turn of its loop, when
    it draws from the empty [range(num_qubits)]: no circuit is changed,
    nothing is printed, and the generator is left as [random.seed(seed)]
    set it.  This holds whatever [qc] is. *)
Theorem create_circuit_without_qubits n g seed qc w :
  n ≤ 0 → 0 < g →
  let r := create_circuit n g seed qc w in
  r.1 = Raise IndexError ∧
  w_heap r.2 = w_heap w ∧
  w_rng r.2 = rng_seed seed ∧
  w_stdout r.2 = w_stdout w.
Proof.
  intros Hn Hg r. subst r.
  by rewrite create_circuit_range_empty by done.
Qed.

(** X4. With [number_of_gates <= 0], [create_circuit] returns [qc] without
    looking at it: no circuit is changed and nothing is printed, but the
    global generator has been re-seeded with [seed]. *)
Theorem create_circuit_without_gates n g seed qc w :
  g ≤ 0 →
  let r := create_circuit n g seed qc w in
  r.1 = Ok qc ∧
  w_heap r.2 = w_heap w ∧
  w_rng r.2 = rng_seed seed ∧
  w_stdout r.2 = w_stdout w.
Proof.
  intros Hg r. subst r. unfold create_circuit, for_range.
  replace (Z.to_nat g) with 0%nat by lia. done.
Qed.

(** X5. With [num_qubits = 1], every gate [create_circuit] appends,
    whether the call returns or raises, is a gate of the one-qubit kind on
    [qc.qubits[0]]. *)
Theorem one_qubit_circuit_gets_one_qubit_gates g seed qc c w :
  w_heap w !! qc = Some c →
  ∃ gates,
    w_heap (create_circuit 1 g seed qc w).2
      = <[qc := with_instructions c gates]> (w_heap w) ∧
    Forall (λ i, ∃ name params q0,
              name ∈ one_qubit ∧
              qubits c !! 0%nat = Some q0 ∧
              i = GateInstr (mkGate name 1 params) [q0]) gates.
Proof.
  intros Hqc.
  destruct (create_circuit_spec 1 g seed qc c w Hqc)
    as (_ & _ & _ & gates & Hgates & Hheap & _).
  exists gates. split; [done|].
  eapply Forall_impl; [done|].
  intros i [name params a qa Hname _ _ Ha Hqa|name a b qa qb _ Ha Hb Hab _ _];
    [|lia].
  exists name, params, qa. replace a with 0 in Hqa by lia. done.
Qed.
End create_extras.

(** The five theorems at work on the generator [Concrete.lcg]. *)

Lemma create_circuit_frame_witness :
  let w := Concrete.world_of 1 [empty_circuit 2; empty_circuit 3] in
  w_heap w !! 1%nat = Some (empty_circuit 3) ∧
  let w' := (create_circuit 3 4 7 1%nat w).2 in
  w_stdout w' = w_stdout w ∧
  w_sim w' = w_sim w ∧
  length (w_heap w') = length (w_heap w) ∧
  (∀ qc', qc' ≠ 1%nat → w_heap w' !! qc' = w_heap w !! qc') ∧
  ∃ c',
    w_heap w' !! 1%nat = Some c' ∧
    qc_name c' = qc_name (empty_circuit 3) ∧
    qubits c' = qubits (empty_circuit 3) ∧
    clbits c' = clbits (empty_circuit 3) ∧
    data (empty_circuit 3) `prefix_of` data c'.
Proof.
  intros w. split; [reflexivity|].
  apply (create_circuit_frame 3 4 7 1%nat (empty_circuit 3) w).
  reflexivity.
Defined.

Lemma appended_gates_fit_their_arity_witness :
  let w := Concrete.world_of 1 [empty_circuit 3] in
  w_heap w !! 0%nat = Some (empty_circuit 3) ∧
  ∃ gates,
    w_heap (create_circuit 3 4 7 0%nat w).2
      = <[0%nat := with_instructions (empty_circuit 3) gates]> (w_heap w) ∧
    Forall (λ i, ∃ gate qargs,
              i = GateInstr gate qargs ∧
              Z.of_nat (length qargs) = gate_num_qubits gate ∧
              Forall (λ q, ∃ a, 0 ≤ a < 3 ∧
                               qubits (empty_circuit 3) !! Z.to_nat a = Some q)
                qargs) gates.
Proof.
  intros w. split; [reflexivity|].
  apply (appended_gates_fit_their_arity 3 4 7 0%nat (empty_circuit 3) w).
  reflexivity.
Defined.

Lemma create_circuit_without_qubits_witness :
  let w := Concrete.world_of 1 [empty_circuit 0] in
  0 ≤ 0 ∧ 0 < 3 ∧
  let r := create_circuit 0 3 7 0%nat w in
  r.1 = Raise IndexError ∧
  w_heap r.2 = w_heap w ∧
  w_rng r.2 = rng_seed 7 ∧
  w_stdout r.2 = w_stdout w.
Proof.
  intros w. split; [lia|]. split; [lia|].
  apply (create_circuit_without_qubits 0 3 7 0%nat w); lia.
Defined.

Lemma create_circuit_without_gates_witness :
  let w := Concrete.world_of 1 [empty_circuit 2] in
  0 ≤ 0 ∧
  let r := create_circuit 2 0 7 0%nat w in
  r.1 = Ok 0%nat ∧
  w_heap r.2 = w_heap w ∧
  w_rng r.2 = rng_seed 7 ∧
  w_stdout r.2 = w_stdout w.
Proof.
  intros w. split; [lia|].
  apply (create_circuit_without_gates 2 0 7 0%nat w); lia.
Defined.

Lemma one_qubit_circuit_gets_one_qubit_gates_witness :
  let w := Concrete.world_of 1 [empty_circuit 1] in
  w_heap w !! 0%nat = Some (empty_circuit 1) ∧
  ∃ gates,
    w_heap (create_circuit 1 3 1 0%nat w).2
      = <[0%nat := with_instructions (empty_circuit 1) gates]> (w_heap w) ∧
    Forall (λ i, ∃ name params q0,
              name ∈ one_qubit ∧
              qubits (empty_circuit 1) !! 0%nat = Some q0 ∧
              i = GateInstr (mkGate name 1 params) [q0]) gates.
Proof.
  intros w. split; [reflexivity|].
  apply (one_qubit_circuit_gets_one_qubit_gates 3 1 0%nat (empty_circuit 1) w).
  reflexivity.
Defined.

(** * Further properties of the comparison *)

Section comparison_edges.
Context `{RandomGen, Simulator} (str_float : float → string).
Implicit Types w : World.

Lemma compare_amplitudes_out_of_range tn ex i errors w :
  0 ≤ i →
  (length tn `min` length ex ≤ Z.to_nat i)%nat →
  compare_amplitudes str_float tn ex i errors w = (Raise IndexError, w).
Proof.
  intros Hi Hlen. unfold compare_amplitudes.
  rewrite !list_getitem_nonneg by done.
  destruct (tn !! Z.to_nat i) as [t|] eqn:Ht; [|done].
  apply lookup_lt_Some in Ht.
  rewrite (lookup_ge_None_2 ex) by lia. done.
Qed.

Lemma compare_loop_short tn ex n errors w :
  (length tn `min` length ex < n)%nat →
  for_range_from 0 n (compare_amplitudes str_float tn ex) errors w =
    (Raise IndexError, add_lines (report str_float 0 (zip tn ex)) w).
Proof.
  intros Hlen.
  set (k := (length tn `min` length ex)%nat) in *.
  replace n with (k + S (n - k - 1))%nat by lia.
  eapply for_range_from_raise.
  - apply compare_loop; [done|simpl; lia..].
  - change (Z.to_nat 0) with 0%nat. rewrite drop_0.
    rewrite take_ge by (rewrite length_zip_with; lia).
    apply compare_amplitudes_out_of_range; [lia|]. fold k. lia.
Qed.

Lemma compare_statevectors_short n svTN svES tn tns ex exs w :
  svTN !! "my_sv" = Some (tn :: tns) →
  svES !! "my_sv" = Some (ex :: exs) →
  Z.of_nat (length tn `min` length ex) < 2 ^ n →
  compare_statevectors str_float n svTN svES w =
    (Raise IndexError, add_lines (report str_float 0 (zip tn ex)) w).
Proof.
  intros HTN HES Hlen. unfold compare_statevectors.
  assert (0 ≤ n) as Hn.
  { destruct (decide (0 ≤ n)); [done|]. rewrite Z.pow_neg_r in Hlen; lia. }
  rewrite bool_decide_eq_true_2 by done.
  erewrite bind_ok;
    [|erewrite bind_ok; [|by rewrite HTN]; by rewrite list_getitem_nonneg].
  erewrite bind_ok;
    [|erewrite bind_ok; [|by rewrite HES]; by rewrite list_getitem_nonneg].
  erewrite bind_ok by done.
  unfold for_range.
  erewrite bind_raise; [done|].
  apply compare_loop_short. lia.
Qed.

(** How a comparison ends, by what it is given. *)
Lemma compare_statevectors_cases n svTN svES w :
  let r := compare_statevectors str_float n svTN svES w in
  match svTN !! "my_sv" with
  | None => r = (Raise KeyError, w)
  | Some [] => r = (Raise IndexError, w)
  | Some (tn :: _) =>
      match svES !! "my_sv" with
      | None => r = (Raise KeyError, w)
      | Some [] => r = (Raise IndexError, w)
      | Some (ex :: _) =>
          if bool_decide (n < 0) then r = (Raise TypeError, w)
          else if bool_decide (Z.of_nat (length tn `min` length ex) < 2 ^ n)
          then r = (Raise IndexError,
                    add_lines (report str_float 0 (zip tn ex)) w)
          else
            let pairs := take (Z.to_nat (2 ^ n)) (zip tn ex) in
            let errors := length (filter (λ p, mismatch threshold p) pairs) in
            r = (Ok tt,
                 add_lines (report str_float 0 pairs
                            ++ [verdict errors; "-----------"]) w)
      end
  end.
Proof.
  intros r. subst r.
  destruct (svTN !! "my_sv") as [[|tn tns]|] eqn:HTN.
  - unfold compare_statevectors. rewrite HTN. done.
  - destruct (svES !! "my_sv") as [[|ex exs]|] eqn:HES.
    + unfold compare_statevectors. rewrite HTN, HES. done.
    + case_bool_decide as Hn.
      * unfold compare_statevectors. rewrite HTN, HES.
        rewrite bool_decide_eq_false_2 by lia. done.
      * case_bool_decide as Hlen.
        -- by eapply compare_statevectors_short.
        -- eapply compare_statevectors_spec; [lia|done|done|lia|lia].
    + unfold compare_statevectors. rewrite HTN, HES. done.
  - unfold compare_statevectors. rewrite HTN. done.
Qed.
End comparison_edges.

Lemma float_abs_binary_round_aux prec emax mx ex lx :
  SFabs (binary_round_aux prec emax true mx ex lx)
  = SFabs (binary_round_aux prec emax false mx ex lx).
Proof.
  unfold binary_round_aux.
  destruct (shr_fexp prec emax mx ex lx) as [mrs' e'].
  destruct (shr_fexp prec emax _ e' loc_Exact) as [mrs'' e''].
  destruct (shr_m mrs''); [done| |done].
  by destruct (_ <=? _).
Qed.

Lemma float_abs_binary_normalize_opp prec emax m e szero :
  SFabs (binary_normalize prec emax (- m) e szero)
  = SFabs (binary_normalize prec emax m e szero).
Proof.
  destruct m as [|p|p]; simpl; [done|..]; unfold binary_round;
    destruct (shl_align _ _ _) as [mz ez];
    by rewrite float_abs_binary_round_aux.
Qed.

Lemma float_abs_sub_comm x y :
  Float.abs (Float.sub x y) = Float.abs (Float.sub y x).
Proof.
  unfold Float.abs, Float.sub.
  destruct x as [[]|[]| |sx mx ex], y as [[]|[]| |sy my ey]; try done.
  unfold SFsub. rewrite (Z.min_comm ey ex).
  rewrite <- float_abs_binary_normalize_opp. f_equal. f_equal. lia.
Qed.

Lemma float_gt_nan t : Float.gt S754_nan t = false.
Proof. unfold Float.gt, SFltb, SFcompare. by destruct t. Qed.

Lemma mismatch_swap p : mismatch threshold (p.2, p.1) = mismatch threshold p.
Proof.
  unfold mismatch, diff0, diff1. simpl.
  by rewrite (float_abs_sub_comm p.2.1), (float_abs_sub_comm p.2.2).
Qed.

Lemma mismatch_nan t e :
  Float.is_nan t.1 = true → Float.is_nan t.2 = true →
  mismatch threshold (t, e) = false.
Proof.
  destruct t as [t1 t2]. simpl.
  destruct t1; try done. destruct t2; try done.
Qed.

Section comparison_extras.
Context `{RandomGen, Simulator} (str_float : float → string).
Implicit Types w : World.

Lemma report_swap i ps :
  report str_float i ((λ p, (p.2, p.1)) <$> ps) = report str_float i ps.
Proof.
  revert i. induction ps as [|p ps IH]; intros i; [done|].
  cbn [fmap list_fmap report]. rewrite IH, mismatch_swap.
  unfold diff_line, diff0, diff1. simpl.
  by rewrite (float_abs_sub_comm p.2.1), (float_abs_sub_comm p.2.2).
Qed.

Lemma filter_mismatch_swap ps :
  length (filter (λ p, mismatch threshold p) ((λ p, (p.2, p.1)) <$> ps))
  = length (filter (λ p, mismatch threshold p) ps).
Proof. by rewrite <- !(length_report str_float 0), report_swap. Qed.

Lemma zip_swap {A B} (l : list A) (k : list B) :
  zip k l = (λ p, (p.2, p.1)) <$> zip l k.
Proof.
  revert k. induction l as [|a l IH]; intros [|b k]; simpl; [done..|].
  by rewrite IH.
Qed.

Lemma report_no_mismatch i ps :
  Forall (λ p, mismatch threshold p = false) ps → report str_float i ps = [].
Proof.
  intros Hall. revert i.
  induction Hall as [|p ps Hp Hps IH]; intros i; [done|].
  cbn [report]. by rewrite Hp, IH.
Qed.

Lemma filter_no_mismatch ps :
  Forall (λ p, mismatch threshold p = false) ps →
  filter (λ p, mismatch threshold p) ps = [].
Proof.
  induction 1 as [|p ps Hp Hps IH]; [done|].
  rewrite filter_cons_False by (rewrite Hp; simpl; tauto). done.
Qed.

(** X6. The comparison returns (rather than raises) exactly when both
    snapshot dictionaries hold a non-empty list under ['my_sv'],
    [num_qubits] is not negative, and the first statevector of each list has
    at least [2^num_qubits] amplitudes. *)
Theorem comparison_returns_iff n svTN svES w :
  (compare_statevectors str_float n svTN svES w).1 = Ok tt ↔
  ∃ tn tns ex exs,
    svTN !! "my_sv" = Some (tn :: tns) ∧
    svES !! "my_sv" = Some (ex :: exs) ∧
    0 ≤ n ∧
    2 ^ n ≤ Z.of_nat (length tn) ∧ 2 ^ n ≤ Z.of_nat (length ex).
Proof.
  pose proof (compare_statevectors_cases str_float n svTN svES w) as Hc.
  cbv zeta in Hc. split.
  - intros Hok.
    destruct (svTN !! "my_sv") as [[|tn tns]|]; try by rewrite Hc in Hok.
    destruct (svES !! "my_sv") as [[|ex exs]|]; try by rewrite Hc in Hok.
    case_bool_decide; [by rewrite Hc in Hok|].
    case_bool_decide; [by rewrite Hc in Hok|].
    exists tn, tns, ex, exs. split_and!; [done|done|lia..].
  - intros (tn & tns & ex & exs & HTN & HES & Hn & Htn & Hex).
    rewrite HTN, HES in Hc.
    rewrite bool_decide_eq_false_2 in Hc by lia.
    rewrite bool_decide_eq_false_2 in Hc by lia.
    by rewrite Hc.
Qed.

(** X7. The comparison raises [KeyError] exactly when ['my_sv'] is missing
    from the tensor-network snapshots, or is there with a non-empty list
    while it is missing from the statevector snapshots; nothing has been
    printed by then. *)
Theorem comparison_key_error n svTN svES w :
  let r := compare_statevectors str_float n svTN svES w in
  (r.1 = Raise KeyError ↔
   svTN !! "my_sv" = None ∨
   (svTN !! "my_sv" ≠ Some [] ∧ svES !! "my_sv" = None)) ∧
  (r.1 = Raise KeyError → r.2 = w).
Proof.
  pose proof (compare_statevectors_cases str_float n svTN svES w) as Hc.
  cbv zeta in *.
  destruct (svTN !! "my_sv") as [[|tn tns]|].
  { rewrite Hc. simpl. split; [|done]. split; [done|]. by intros [|[]]. }
  2: { rewrite Hc. simpl. split; [|done]. split; [by left|done]. }
  destruct (svES !! "my_sv") as [[|ex exs]|].
  { rewrite Hc. simpl. split; [|done]. split; [done|]. by intros [|[]]. }
  2: { rewrite Hc. simpl. split; [|done]. split; [by right|done]. }
  repeat case_bool_decide; rewrite Hc; simpl;
    (split; [|done]); (split; [done|]); by intros [|[]].
Qed.

(** X9. When one of the two statevectors has fewer than [2^num_qubits]
    amplitudes, the comparison prints the [diff] lines of the indices both
    have and raises [IndexError] at the first index one of them lacks: no
    verdict and no rule are printed. *)
Theorem comparison_short_snapshot n svTN svES tn tns ex exs w :
  svTN !! "my_sv" = Some (tn :: tns) →
  svES !! "my_sv" = Some (ex :: exs) →
  Z.of_nat (length tn `min` length ex) < 2 ^ n →
  ∃ diff_lines,
    compare_statevectors str_float n svTN svES w
      = (Raise IndexError, add_lines diff_lines w) ∧
    length diff_lines
      = length (filter (λ p, mismatch threshold p) (zip tn ex)).
Proof.
  intros HTN HES Hlen. exists (report str_float 0 (zip tn ex)).
  split; [by eapply compare_statevectors_short|apply length_report].
Qed.

(** X10. A NaN is never counted as a mismatch: when both parts of every
    amplitude of the tensor-network statevector are NaN, the comparison
    prints ["test passed"], whatever the other statevector holds. *)
Theorem comparison_ignores_nan n svTN svES (tn : list amplitude) tns ex exs w :
  0 ≤ n →
  svTN !! "my_sv" = Some (tn :: tns) →
  svES !! "my_sv" = Some (ex :: exs) →
  2 ^ n ≤ Z.of_nat (length tn) →
  2 ^ n ≤ Z.of_nat (length ex) →
  Forall (λ a : amplitude,
            Float.is_nan a.1 = true ∧ Float.is_nan a.2 = true) tn →
  compare_statevectors str_float n svTN svES w
    = (Ok tt, add_lines ["test passed"; "-----------"] w).
Proof.
  intros Hn HTN HES Htn Hex Hnan.
  rewrite (compare_statevectors_spec str_float n svTN svES tn tns ex exs)
    by done.
  cbv zeta.
  assert (Forall (λ p, mismatch threshold p = false)
            (take (Z.to_nat (2 ^ n)) (zip tn ex))) as Hall.
  { apply Forall_take, Forall_forall. intros [t e] Hin.
    apply elem_of_zip_with in Hin as (t' & e' & [= <- <-] & Ht & He).
    rewrite Forall_forall in Hnan. destruct (Hnan _ Ht).
    by apply mismatch_nan. }
  rewrite (report_no_mismatch _ _ Hall). rewrite (filter_no_mismatch _ Hall).
  reflexivity.
Qed.

(** X11. The comparison is symmetric: when both snapshot dictionaries
    hold a non-empty list under ['my_sv'], exchanging them changes neither
    what is printed nor how the comparison ends. *)
Theorem comparison_symmetric n svTN svES tn tns ex exs w :
  svTN !! "my_sv" = Some (tn :: tns) →
  svES !! "my_sv" = Some (ex :: exs) →
  compare_statevectors str_float n svES svTN w
  = compare_statevectors str_float n svTN svES w.
Proof.
  intros HTN HES.
  pose proof (compare_statevectors_cases str_float n svTN svES w) as Hc.
  pose proof (compare_statevectors_cases str_float n svES svTN w) as Hc'.
  cbv zeta in *. rewrite HTN, HES in Hc, Hc'.
  rewrite (Nat.min_comm (length ex)) in Hc'.
  rewrite (zip_swap tn ex) in Hc'.
  rewrite <- fmap_take, filter_mismatch_swap, !report_swap in Hc'.
  repeat case_bool_decide; congruence.
Qed.

(** X12. The comparison reads only the first [2^num_qubits] amplitudes of
    the first statevector under ['my_sv']: two pairs of snapshots that agree
    there give the same output and the same outcome, whatever else they
    hold. *)
Theorem comparison_reads_first_amplitudes
    n svTN svES svTN' svES' tn tns ex exs tn' tns' ex' exs' w :
  svTN !! "my_sv" = Some (tn :: tns) →
  svES !! "my_sv" = Some (ex :: exs) →
  svTN' !! "my_sv" = Some (tn' :: tns') →
  svES' !! "my_sv" = Some (ex' :: exs') →
  take (Z.to_nat (2 ^ n)) tn' = take (Z.to_nat (2 ^ n)) tn →
  take (Z.to_nat (2 ^ n)) ex' = take (Z.to_nat (2 ^ n)) ex →
  compare_statevectors str_float n svTN' svES' w
  = compare_statevectors str_float n svTN svES w.
Proof.
  intros HTN HES HTN' HES' Htn Hex.
  pose proof (compare_statevectors_cases str_float n svTN svES w) as Hc.
  pose proof (compare_statevectors_cases str_float n svTN' svES' w) as Hc'.
  cbv zeta in *. rewrite HTN, HES in Hc. rewrite HTN', HES' in Hc'.
  case_bool_decide as Hn; [congruence|].
  set (N := Z.to_nat (2 ^ n)) in *.
  assert (take N (zip tn' ex') = take N (zip tn ex)) as Hzip.
  { by rewrite !zip_with_take, Htn, Hex. }
  assert ((length tn' `min` length ex') `min` N
          = (length tn `min` length ex) `min` N)%nat as Hmin.
  { pose proof (f_equal length Hzip) as Hl.
    rewrite !length_take, !length_zip_with in Hl. lia. }
  assert (2 ^ n = Z.of_nat N) as HN by (subst N; lia).
  rewrite HN in Hc, Hc'.
  destruct (decide (length tn `min` length ex < N)%nat) as [Hshort|Hlong].
  - rewrite bool_decide_eq_true_2 in Hc by lia.
    rewrite bool_decide_eq_true_2 in Hc' by lia.
    rewrite Hc, Hc'.
    rewrite <- (take_ge (zip tn ex) N) by (rewrite length_zip_with; lia).
    rewrite <- (take_ge (zip tn' ex') N) by (rewrite length_zip_with; lia).
    by rewrite Hzip.
  - rewrite bool_decide_eq_false_2 in Hc by lia.
    rewrite bool_decide_eq_false_2 in Hc' by lia.
    rewrite Hc, Hc'. by rewrite Hzip.
Qed.
End comparison_extras.

(** The theorems at work on snapshots of one qubit. *)

Lemma comparison_short_snapshot_witness :
  let tn := [(Float.of_decimal 5 1, Float.zero)] in
  let ex := Concrete.ground_state 1 in
  let svTN : gmap string (list (list amplitude)) := {[ "my_sv" := [tn] ]} in
  let svES : gmap string (list (list amplitude)) := {[ "my_sv" := [ex] ]} in
  let w := Concrete.world_of 1 [] in
  svTN !! "my_sv" = Some [tn] ∧
  svES !! "my_sv" = Some [ex] ∧
  Z.of_nat (length tn `min` length ex) < 2 ^ 1 ∧
  ∃ diff_lines,
    compare_statevectors Concrete.str_float 1 svTN svES w
      = (Raise IndexError, add_lines diff_lines w) ∧
    length diff_lines
      = length (filter (λ p, mismatch threshold p) (zip tn ex)).
Proof.
  intros tn ex svTN svES w.
  assert (svTN !! "my_sv" = Some [tn]) as H1 by reflexivity.
  assert (svES !! "my_sv" = Some [ex]) as H2 by reflexivity.
  assert (Z.of_nat (length tn `min` length ex) < 2 ^ 1) as H3 by reflexivity.
  split_and!; try assumption.
  exact (comparison_short_snapshot Concrete.str_float 1 svTN svES tn [] ex []
           w H1 H2 H3).
Defined.

Lemma comparison_ignores_nan_witness :
  let tn : list amplitude := [(S754_nan, S754_nan); (S754_nan, S754_nan)] in
  let ex := Concrete.ground_state 1 in
  let svTN : gmap string (list (list amplitude)) := {[ "my_sv" := [tn] ]} in
  let svES : gmap string (list (list amplitude)) := {[ "my_sv" := [ex] ]} in
  let w := Concrete.world_of 1 [] in
  0 ≤ 1 ∧
  svTN !! "my_sv" = Some [tn] ∧
  svES !! "my_sv" = Some [ex] ∧
  2 ^ 1 ≤ Z.of_nat (length tn) ∧
  2 ^ 1 ≤ Z.of_nat (length ex) ∧
  Forall (λ a : amplitude,
            Float.is_nan a.1 = true ∧ Float.is_nan a.2 = true) tn ∧
  compare_statevectors Concrete.str_float 1 svTN svES w
    = (Ok tt, add_lines ["test passed"; "-----------"] w).
Proof.
  intros tn ex svTN svES w.
  assert (0 ≤ 1) as H1 by discriminate.
  assert (svTN !! "my_sv" = Some [tn]) as H2 by reflexivity.
  assert (svES !! "my_sv" = Some [ex]) as H3 by reflexivity.
  assert (2 ^ 1 ≤ Z.of_nat (length tn)) as H4 by discriminate.
  assert (2 ^ 1 ≤ Z.of_nat (length ex)) as H5 by discriminate.
  assert (Forall (λ a : amplitude,
            Float.is_nan a.1 = true ∧ Float.is_nan a.2 = true) tn) as H6
    by (repeat constructor).
  split_and!; try assumption.
  exact (comparison_ignores_nan Concrete.str_float 1 svTN svES tn [] ex [] w
           H1 H2 H3 H4 H5 H6).
Defined.

Lemma comparison_symmetric_witness :
  let tn := [(Float.of_decimal 5 1, Float.zero); (Float.zero, Float.zero)] in
  let ex := Concrete.ground_state 1 in
  let svTN : gmap string (list (list amplitude)) := {[ "my_sv" := [tn] ]} in
  let svES : gmap string (list (list amplitude)) := {[ "my_sv" := [ex] ]} in
  let w := Concrete.world_of 1 [] in
  svTN !! "my_sv" = Some [tn] ∧
  svES !! "my_sv" = Some [ex] ∧
  compare_statevectors Concrete.str_float 1 svES svTN w
  = compare_statevectors Concrete.str_float 1 svTN svES w.
Proof.
  intros tn ex svTN svES w.
  assert (svTN !! "my_sv" = Some [tn]) as H1 by reflexivity.
  assert (svES !! "my_sv" = Some [ex]) as H2 by reflexivity.
  split_and!; try assumption.
  exact (comparison_symmetric Concrete.str_float 1 svTN svES tn [] ex [] w
           H1 H2).
Defined.

Lemma comparison_reads_first_amplitudes_witness :
  let tn := [(Float.of_decimal 5 1, Float.zero); (Float.zero, Float.zero)] in
  let ex := Concrete.ground_state 1 in
  let tn' := tn ++ [(Concrete.one, Concrete.one)] in
  let svTN : gmap string (list (list amplitude)) := {[ "my_sv" := [tn] ]} in
  let svES : gmap string (list (list amplitude)) := {[ "my_sv" := [ex] ]} in
  let svTN' : gmap string (list (list amplitude)) :=
    {[ "my_sv" := [tn'; ex] ]} in
  let w := Concrete.world_of 1 [] in
  svTN !! "my_sv" = Some [tn] ∧
  svES !! "my_sv" = Some [ex] ∧
  svTN' !! "my_sv" = Some [tn'; ex] ∧
  svES !! "my_sv" = Some [ex] ∧
  take (Z.to_nat (2 ^ 1)) tn' = take (Z.to_nat (2 ^ 1)) tn ∧
  take (Z.to_nat (2 ^ 1)) ex = take (Z.to_nat (2 ^ 1)) ex ∧
  compare_statevectors Concrete.str_float 1 svTN' svES w
  = compare_statevectors Concrete.str_float 1 svTN svES w.
Proof.
  intros tn ex tn' svTN svES svTN' w.
  assert (svTN !! "my_sv" = Some [tn]) as H1 by reflexivity.
  assert (svES !! "my_sv" = Some [ex]) as H2 by reflexivity.
  assert (svTN' !! "my_sv" = Some [tn'; ex]) as H3 by reflexivity.
  assert (take (Z.to_nat (2 ^ 1)) tn' = take (Z.to_nat (2 ^ 1)) tn) as H4
    by reflexivity.
  assert (take (Z.to_nat (2 ^ 1)) ex = take (Z.to_nat (2 ^ 1)) ex) as H5
    by reflexivity.
  split_and!; try assumption.
  exact (comparison_reads_first_amplitudes Concrete.str_float 1 svTN svES
           svTN' svES tn [] ex [] tn' [ex] ex [] w H1 H2 H3 H2 H4 H5).
Defined.

(** * Further properties of a run *)

Section run_trace.
Context `{RandomGen, Simulator} (str_float : float → string).
Implicit Types w : World.

(** The comparison prints and does nothing else. *)
Lemma compare_statevectors_prints n svTN svES w :
  ∃ lines,
    (compare_statevectors str_float n svTN svES w).2 = add_lines lines w.
Proof.
  pose proof (compare_statevectors_cases str_float n svTN svES w) as Hc.
  cbv zeta in Hc.
  assert (w = add_lines [] w) as Hnil by by rewrite add_lines_nil.
  destruct (svTN !! "my_sv") as [[|tn tns]|];
    [exists []; by rewrite Hc| |exists []; by rewrite Hc].
  destruct (svES !! "my_sv") as [[|ex exs]|];
    [exists []; by rewrite Hc| |exists []; by rewrite Hc].
  repeat case_bool_decide; rewrite Hc; eauto.
Qed.

(** [execute] on one circuit hands it to the simulator as it is and
    records the call. *)
Lemma wp_execute_result qc c opts shots Q w :
  w_heap w !! qc = Some c →
  Q (Ok (sim_execute [c] opts shots (w_sim w)).1)
    (set_sim (sim_execute [c] opts shots (w_sim w)).2
       (add_call (CallExecute [qc] [c] opts shots) w)) →
  wp (execute [qc] opts shots) Q w.
Proof.
  intros Hqc HQ. unfold execute. apply wp_bind. simpl py_map.
  apply wp_bind. eapply wp_read_circuit; [done|].
  apply wp_bind, wp_ret, wp_ret.
  apply wp_bind, wp_modify.
  unfold wp, simulate. simpl w_sim.
  by destruct (sim_execute _ _ _ _) as [r s].
Qed.

Lemma getitem_0_None {A} (l : list A) : py_getitem l 0 = None ↔ l = [].
Proof.
  rewrite list_getitem_nonneg by done. change (Z.to_nat 0) with 0%nat.
  by destruct l.
Qed.

Lemma random_statevector_test_run n g seed w :
  let r := random_statevector_test str_float n g seed w in
  run_post str_float n g seed w r.1 r.2.
Proof.
  intros r. subst r.
  change (wp (random_statevector_test str_float n g seed)
            (run_post str_float n g seed w) w).
  unfold random_statevector_test.
  set (qc := length (w_heap w)).
  apply wp_bind.
  assert (∃ s, wp (if bool_decide (seed = 100000000)
                   then random_choice (Range seed) else mret seed)
                 (λ o w', o = Ok (used_seed seed w) ∧ w' = set_rng s w) w)
    as [s0 Hseed].
  { unfold used_seed. case_bool_decide as Hs.
    - subst seed.
      destruct (random_choice_range 100000000 w) as (x & s & _ & Hx & Hc);
        [lia|].
      exists s. eapply wp_eq; [done|]. by rewrite Hx.
    - exists (w_rng w). apply wp_ret. split; [done|]. by destruct w. }
  eapply wp_mono; [|exact Hseed].
  intros o w0 [-> ->]. cbv beta iota zeta.
  apply wp_bind, wp_modify. fold (banner n g (used_seed seed w)).
  apply wp_bind.
  unfold wp at 1. unfold new_circuit. cbn [fst snd].
  fold (empty_circuit n).
  set (w1 := set_heap _ _).
  assert (w_heap w1 = w_heap w ++ [empty_circuit n]) as Hheap1 by done.
  assert (w_stdout w1 = w_stdout w ++ [banner n g (used_seed seed w)])
    as Hout1 by done.
  assert (w_calls w1 = w_calls w) as Hcalls1 by done.
  assert (w_sim w1 = w_sim w) as Hsim1 by done.
  assert (w_heap w1 !! length (w_heap (add_stdout (banner n g (used_seed seed w)) (set_rng s0 w))) = Some (empty_circuit n)) as Hqc.
  { simpl. by rewrite list_lookup_middle. }
  change (length (w_heap (add_stdout (banner n g (used_seed seed w))
                            (set_rng s0 w)))) with qc in *.
  clearbody w1.
  apply wp_bind.
  pose proof (create_circuit_spec n g (used_seed seed w) qc _ w1 Hqc) as Hcr.
  unfold wp in Hcr |- *.
  destruct Hcr as (Hsim2 & Hout2 & Hcalls2 & gates & Hgates & Hheap2 & Hr).
  assert (w_heap (create_circuit n g (used_seed seed w) qc w1).2
          = w_heap w ++ [with_instructions (empty_circuit n) gates]) as Hheap2'.
  { rewrite Hheap2, Hheap1. subst qc.
    rewrite insert_app_r_alt, Nat.sub_diag by lia. done. }
  destruct (create_circuit n g (used_seed seed w) qc w1) as [[qc'|e] w2] eqn:Hcreate;
    cbn [fst snd] in *; last first.
  { exists w1, gates, [], []. fold qc. rewrite Hcreate. cbn [fst snd].
    destruct Hr as (-> & _ & Hwhy).
    split_and!; try done; congruence. }
  destruct Hr as [-> Hlen].
  assert (w_heap w2 !! qc = Some (with_instructions (empty_circuit n) gates))
    as Hqc2.
  { rewrite Hheap2'. subst qc. by rewrite list_lookup_middle. }
  apply wp_bind. eapply wp_add_instruction; [done|].
  set (w3 := set_heap _ w2).
  assert (w_heap w3 = w_heap w ++ [measured_circuit n gates]) as Hheap3.
  { subst w3. cbn [w_heap set_heap]. rewrite Hheap2'. subst qc.
    rewrite insert_app_r_alt, Nat.sub_diag by lia. simpl.
    by rewrite with_instructions_app. }
  assert (w_heap w3 !! qc = Some (measured_circuit n gates)) as Hqc3.
  { rewrite Hheap3. subst qc. by rewrite list_lookup_middle. }
  assert (w_rng w3 = w_rng w2) as Hrng3 by done.
  assert (w_sim w3 = w_sim w) as Hsim3.
  { subst w3. simpl. congruence. }
  assert (w_calls w3 = w_calls w ++
            [CallCreateCircuit n g (used_seed seed w) qc]) as Hcalls3.
  { subst w3. simpl. congruence. }
  assert (w_stdout w3 = w_stdout w ++ [banner n g (used_seed seed w)])
    as Hout3.
  { subst w3. simpl. congruence. }
  clearbody w3.
  apply wp_bind. eapply wp_execute_result; [done|].
  rewrite Hsim3.
  set (result_ES := (sim_execute [measured_circuit n gates]
                       {[ "method" := "statevector" ]} 1 (w_sim w)).1).
  set (w4 := set_sim _ _).
  assert (w_calls w4 = w_calls w ++
            CallCreateCircuit n g (used_seed seed w) qc
            :: [execution qc (measured_circuit n gates) "statevector"])
    as Hcalls4.
  { subst w4. simpl. rewrite Hcalls3. by rewrite <- app_assoc. }
  assert (w_heap w4 = w_heap w ++ [measured_circuit n gates]) as Hheap4 by done.
  assert (w_heap w4 !! qc = Some (measured_circuit n gates)) as Hqc4 by done.
  assert (w_rng w4 = w_rng w2) as Hrng4 by done.
  assert (w_stdout w4 = w_stdout w ++ [banner n g (used_seed seed w)])
    as Hout4 by done.
  clearbody w4.
  apply wp_bind, wp_lift_option.
  destruct (py_getitem (results result_ES) 0) as [res_ES_0|] eqn:Hres;
    last first.
  { apply getitem_0_None in Hres.
    exists w1, gates, [execution qc (measured_circuit n gates) "statevector"], [].
    fold qc. rewrite Hcreate. cbn [fst snd].
    split_and!; try done. cbv zeta. by left. }
  assert (results result_ES ≠ []) as Hsome.
  { intros Hnil%getitem_0_None. congruence. }
  apply wp_bind. eapply wp_execute_single; [exact Hqc4|].
  intros result_TN s2.
  set (w5 := set_sim _ _).
  assert (w_calls w5 = w_calls w ++
            CallCreateCircuit n g (used_seed seed w) qc
            :: [execution qc (measured_circuit n gates) "statevector";
                execution qc (measured_circuit n gates) "tensor_network"])
    as Hcalls5.
  { subst w5. simpl. rewrite Hcalls4. by rewrite <- app_assoc. }
  assert (w_heap w5 = w_heap w ++ [measured_circuit n gates]) as Hheap5 by done.
  assert (w_rng w5 = w_rng w2) as Hrng5 by done.
  assert (w_stdout w5 = w_stdout w ++ [banner n g (used_seed seed w)])
    as Hout5 by done.
  clearbody w5.
  apply wp_bind, wp_lift_option.
  destruct (py_getitem (results result_TN) 0) as [res_TN_0|]; last first.
  { exists w1, gates, [execution qc (measured_circuit n gates) "statevector";
                    execution qc (measured_circuit n gates) "tensor_network"], [].
    fold qc. rewrite Hcreate. cbn [fst snd].
    split_and!; try done. cbv zeta. right. split_and!; [done..|]. by left. }
  destruct (compare_statevectors_prints n (snapshots_statevector res_TN_0)
              (snapshots_statevector res_ES_0) w5) as [lines Hlines].
  unfold wp.
  exists w1, gates, [execution qc (measured_circuit n gates) "statevector";
                  execution qc (measured_circuit n gates) "tensor_network"], lines.
  fold qc. rewrite Hcreate, Hlines. cbn [fst snd].
  split_and!; try done.
  { simpl. rewrite Hout5. by rewrite <- app_assoc. }
  cbv zeta. right. split_and!; [done..|]. right.
  exists (snapshots_statevector res_TN_0), (snapshots_statevector res_ES_0), w5.
  rewrite <- Hlines. by destruct (compare_statevectors _ _ _ _ _).
Qed.
End run_trace.

Section run_executions.
Context `{RandomGen, Simulator} (str_float : float → string).
Implicit Types w : World.

(** C2. In every run of [random_statevector_test], the calls of [execute]
    are, in this order, the one with method ["statevector"] and the one with
    method ["tensor_network"], and never more.  Both are given the
    one-element list [[qc]] of the same circuit object, which holds the same
    value at both calls and afterwards: the gates [create_circuit] appended,
    followed by the one snapshot ['my_sv'].  Both use [shots=1]; they differ
    in the method only.  For a positive [num_qubits] the calls are forced:
    when [create_circuit] raises, the run raises the same and executes
    nothing; when it returns, the first execution takes place, on the
    simulator as the run found it, and the second one follows unless the
    first result list is empty, in which case line 36 raises
    [IndexError]. *)
Theorem executions_receive_the_same_circuit n g seed w :
  let r := random_statevector_test str_float n g seed w in
  let qc := length (w_heap w) in
  ∃ s gates execs,
    w_calls r.2 = w_calls w ++ CallCreateCircuit n g s qc :: execs ∧
    Forall gate_as_specified gates ∧
    let c := measured_circuit n gates in
    let first := CallExecute [qc] [c] {[ "method" := "statevector" ]} 1 in
    let second := CallExecute [qc] [c] {[ "method" := "tensor_network" ]} 1 in
    execs `prefix_of` [first; second] ∧
    (execs ≠ [] → w_heap r.2 !! qc = Some c) ∧
    (r.1 = Ok tt → execs = [first; second]) ∧
    (0 < n →
     ∀ v qc', w_heap v !! qc' = Some (empty_circuit n) →
       let created := create_circuit n g s qc' v in
       w_heap created.2 !! qc'
         = Some (with_instructions (empty_circuit n) gates) ∧
       match created.1 with
       | Raise e => r.1 = Raise e ∧ execs = []
       | Ok _ =>
           match results (sim_execute [c] {[ "method" := "statevector" ]} 1
                            (w_sim w)).1 with
           | [] => r.1 = Raise IndexError ∧ execs = [first]
           | _ :: _ => execs = [first; second]
           end
       end).
Proof.
  intros r qc.
  destruct (random_statevector_test_run str_float n g seed w)
    as (w1 & gates & execs & lines & Hw1 & Hcr & Hgates & _ & Hcalls & _
        & Hend).
  fold r qc in Hcalls, Hend, Hcr. cbv zeta in Hend.
  exists (used_seed seed w), gates, execs.
  split; [done|]. split.
  { eapply Forall_impl; [done|]. apply random_gate_as_specified. }
  cbv zeta.
  assert (w_heap w1 !! qc = Some (empty_circuit n)) as Hqc.
  { rewrite Hw1. subst qc. by rewrite list_lookup_middle. }
  assert (∀ v qc', w_heap v !! qc' = Some (empty_circuit n) →
            w_heap (create_circuit n g (used_seed seed w) qc' v).2 !! qc'
              = Some (with_instructions (empty_circuit n) gates) ∧
            match (create_circuit n g (used_seed seed w) qc w1).1,
                  (create_circuit n g (used_seed seed w) qc' v).1 with
            | Ok _, Ok _ => True
            | Raise e1, Raise e2 => e1 = e2
            | _, _ => False
            end) as Hsame.
  { intros v qc' Hv.
    destruct (create_circuit_agree n g (used_seed seed w) qc qc' w1 v)
      as [[_ Hheap] Hr]; [rewrite Hv; exact Hqc|].
    rewrite Hcr in Hheap. subst qc.
    rewrite list_lookup_middle in Hheap by done.
    split; [done|].
    by destruct (create_circuit _ _ _ _ w1).1, (create_circuit _ _ _ _ v).1. }
  destruct (create_circuit n g (used_seed seed w) qc w1).1 as [qc0|e].
  - destruct Hend as (_ & Hheap & Hexecs).
    assert (w_heap r.2 !! qc = Some (measured_circuit n gates)) as Hfinal.
    { rewrite Hheap. subst qc. by rewrite list_lookup_middle. }
    destruct Hexecs as [(Hres & -> & _ & Hr)|(Hres & -> & _)].
    + split_and!; [by apply prefix_cons, prefix_nil|done|congruence|].
      intros _ v qc' Hv. destruct (Hsame v qc' Hv) as [Hgot Hout].
      split; [done|].
      destruct (create_circuit _ _ _ _ v).1; [|done]. by rewrite Hres.
    + split_and!; [done..|].
      intros _ v qc' Hv. destruct (Hsame v qc' Hv) as [Hgot Hout].
      split; [done|].
      destruct (create_circuit _ _ _ _ v).1; [|done].
      by destruct (results _).
  - destruct Hend as (_ & _ & Hr & -> & _).
    split_and!; [apply prefix_nil|done|congruence|].
    intros _ v qc' Hv. destruct (Hsame v qc' Hv) as [Hgot Hout].
    split; [done|].
    destruct (create_circuit _ _ _ _ v).1; [done|]. by subst.
Qed.
End run_executions.

Section run_extras.
Context `{RandomGen, Simulator} (str_float : float → string).
Implicit Types w : World.

Lemma add_lines_inj lines1 lines2 w :
  add_lines lines1 w = add_lines lines2 w → lines1 = lines2.
Proof.
  intros Heq. apply (f_equal w_stdout) in Heq. simpl in Heq.
  by apply app_inv_head in Heq.
Qed.

Lemma length_qubits_empty_circuit n :
  length (qubits (empty_circuit n)) = Z.to_nat n.
Proof. simpl. by rewrite length_fmap, length_seqZ. Qed.

Lemma with_instructions_empty_inj n gates1 gates2 :
  with_instructions (empty_circuit n) gates1
  = with_instructions (empty_circuit n) gates2 →
  gates1 = gates2.
Proof. intros Heq. by apply (f_equal data) in Heq. Qed.

(** X13. The first line a run prints names the seed that the one call of
    [create_circuit] receives, so a run can be repeated from its output (for
    the default seed this is the seed drawn in line 17, not 100000000). *)
Theorem banner_shows_the_seed n g seed w :
  let r := random_statevector_test str_float n g seed w in
  ∃ s execs lines,
    w_calls r.2
      = w_calls w ++ CallCreateCircuit n g s (length (w_heap w)) :: execs ∧
    w_stdout r.2 = w_stdout w ++ banner n g s :: lines.
Proof.
  intros r.
  destruct (random_statevector_test_run str_float n g seed w)
    as (w1 & gates & execs & lines & _ & _ & _ & _ & Hcalls & Hout & _).
  by exists (used_seed seed w), execs, lines.
Qed.

(** X14. For a positive [num_qubits], for which lines 19 and 20 build
    the registers, a run of [random_statevector_test] creates exactly one
    circuit object however it ends, named ["tn_circuit"] on two registers
    of [num_qubits] bits, and leaves every other circuit object as it was.
    The new circuit holds random gates, followed or not by the snapshot
    ['my_sv'], and nothing else; a run that returns leaves it with the
    snapshot. *)
Theorem run_allocates_one_circuit n g seed w :
  0 < n →
  let r := random_statevector_test str_float n g seed w in
  ∃ gates instrs,
    w_heap r.2 = w_heap w ++ [with_instructions (empty_circuit n) instrs] ∧
    Forall gate_as_specified gates ∧
    (instrs = gates ∨ instrs = gates ++ [SnapshotInstr "my_sv" "statevector"]) ∧
    (r.1 = Ok tt → instrs = gates ++ [SnapshotInstr "my_sv" "statevector"]).
Proof.
  intros _ r.
  destruct (random_statevector_test_run str_float n g seed w)
    as (w1 & gates & execs & lines & _ & Hcr & Hgates & _ & _ & _ & Hend).
  fold r in Hend.
  assert (Forall gate_as_specified gates) as Hspec.
  { eapply Forall_impl; [done|]. apply random_gate_as_specified. }
  destruct (create_circuit _ _ _ _ w1).1 as [qc'|e].
  - destruct Hend as (_ & Hheap & _).
    exists gates, (gates ++ [SnapshotInstr "my_sv" "statevector"]).
    split_and!; [done|done|by right|done].
  - destruct Hend as (_ & _ & Hr & _ & _ & Hheap).
    exists gates, gates. rewrite Hheap, Hr.
    split_and!; [done|done|by left|done].
Qed.

(** X15. For a positive [num_qubits] and an explicit seed (any but
    100000000), the circuit a run builds and the state in which it leaves
    the global generator depend on [num_qubits], [num_gates] and [seed]
    only: two runs with the same arguments build the same circuit and leave
    the same generator state, whatever the generator, the simulator and the
    other circuits were before. *)
Theorem explicit_seed_reproduces_circuit n g seed w1 w2 :
  0 < n →
  seed ≠ 100000000 →
  let r1 := random_statevector_test str_float n g seed w1 in
  let r2 := random_statevector_test str_float n g seed w2 in
  ∃ c,
    w_heap r1.2 = w_heap w1 ++ [c] ∧
    w_heap r2.2 = w_heap w2 ++ [c] ∧
    w_rng r1.2 = w_rng r2.2.
Proof.
  intros _ Hseed r1 r2.
  destruct (random_statevector_test_run str_float n g seed w1)
    as (v1 & gates1 & execs1 & lines1 & Hv1 & Hcr1 & _ & Hrng1 & _ & _
        & Hend1).
  destruct (random_statevector_test_run str_float n g seed w2)
    as (v2 & gates2 & execs2 & lines2 & Hv2 & Hcr2 & _ & Hrng2 & _ & _
        & Hend2).
  fold r1 in Hrng1, Hend1. fold r2 in Hrng2, Hend2.
  unfold used_seed in *. rewrite !bool_decide_eq_false_2 in * by done.
  destruct (create_circuit_agree n g seed (length (w_heap w1))
              (length (w_heap w2)) v1 v2) as [[Hrng Hheap] Hr].
  { by rewrite Hv1, Hv2, !list_lookup_middle. }
  rewrite Hcr1, Hcr2, !list_lookup_middle in Hheap by done.
  assert (gates2 = gates1) as ->
    by (apply (with_instructions_empty_inj n); congruence).
  destruct (create_circuit n g seed _ v1).1 as [a|e1],
           (create_circuit n g seed _ v2).1 as [b|e2]; try done.
  - destruct Hend1 as (_ & Hh1 & _), Hend2 as (_ & Hh2 & _).
    exists (measured_circuit n gates1). split_and!; [done|done|congruence].
  - destruct Hend1 as (_ & _ & _ & _ & _ & Hh1).
    destruct Hend2 as (_ & _ & _ & _ & _ & Hh2).
    exists (with_instructions (empty_circuit n) gates1).
    split_and!; congruence.
Qed.

Lemma compare_statevectors_ok n svTN svES w w' :
  compare_statevectors str_float n svTN svES w = (Ok tt, w') →
  ∃ pairs,
    Z.of_nat (length pairs) = 2 ^ n ∧
    w' = add_lines (report str_float 0 pairs
                    ++ [verdict (length (report str_float 0 pairs));
                        "-----------"]) w.
Proof.
  intros Hok.
  pose proof (compare_statevectors_cases str_float n svTN svES w) as Hc.
  cbv zeta in Hc.
  destruct (svTN !! "my_sv") as [[|tn tns]|]; try congruence.
  destruct (svES !! "my_sv") as [[|ex exs]|]; try congruence.
  case_bool_decide; [congruence|]. case_bool_decide; [congruence|].
  exists (take (Z.to_nat (2 ^ n)) (zip tn ex)). split.
  - rewrite length_take, length_zip_with. lia.
  - rewrite length_report. congruence.
Qed.

Lemma compare_statevectors_raises n svTN svES w e w' :
  0 ≤ n →
  compare_statevectors str_float n svTN svES w = (Raise e, w') →
  e ∈ [IndexError; KeyError].
Proof.
  intros Hn Hraise.
  pose proof (compare_statevectors_cases str_float n svTN svES w) as Hc.
  cbv zeta in Hc.
  assert (IndexError ∈ [IndexError; KeyError]) as Hindex
    by apply list_elem_of_here.
  assert (KeyError ∈ [IndexError; KeyError]) as Hkey
    by apply list_elem_of_further, list_elem_of_here.
  destruct (svTN !! "my_sv") as [[|tn tns]|]; [congruence| |congruence].
  destruct (svES !! "my_sv") as [[|ex exs]|]; [congruence| |congruence].
  case_bool_decide; [lia|]. case_bool_decide; congruence.
Qed.

(** X16. A run that returns has printed the banner, then the [diff]
    lines, then the verdict for as many mismatches as there are [diff]
    lines, then the rule, and nothing else; the verdict is ["test passed"]
    exactly when there is no [diff] line, and there are at most
    [2^num_qubits] of them. *)
Theorem returning_run_output n g seed w :
  let r := random_statevector_test str_float n g seed w in
  r.1 = Ok tt →
  ∃ s diff_lines last_line,
    w_stdout r.2
      = w_stdout w
        ++ banner n g s :: diff_lines ++ [last_line; "-----------"] ∧
    last_line = verdict (length diff_lines) ∧
    (last_line = "test passed" ↔ diff_lines = []) ∧
    Z.of_nat (length diff_lines) ≤ 2 ^ n.
Proof.
  intros r Hok.
  destruct (random_statevector_test_run str_float n g seed w)
    as (v & gates & execs & lines & _ & _ & _ & _ & _ & Hout & Hend).
  fold r in Hout, Hend. rewrite Hok in Hend.
  destruct (create_circuit _ _ _ _ v).1 as [qc'|e];
    [|by destruct Hend as (_ & _ & ? & _)].
  cbv zeta in Hend.
  destruct Hend as (_ & _ & [(_ & _ & _ & ?)|(_ & _ & [[_ ?]|Hcmp])]);
    try done.
  destruct Hcmp as (svTN & svES & w5 & Hcmp).
  destruct (compare_statevectors_ok _ _ _ _ _ Hcmp) as (pairs & Hlen & Hw).
  apply add_lines_inj in Hw. subst lines.
  exists (used_seed seed w), (report str_float 0 pairs),
    (verdict (length (report str_float 0 pairs))).
  split_and!; [done|done| |].
  - rewrite verdict_passed. apply length_zero_iff_nil.
  - rewrite length_report, <- Hlen. apply inj_le, length_filter.
Qed.

(** X17. For a positive [num_qubits], a run raises nothing but
    [IndexError] and [KeyError]: [choices.remove(qubit)] always finds its
    element, [second_qubit] is bound whenever line 46 reads it, and
    [range(length)] is given an integer. *)
Theorem run_raises_only n g seed w e :
  0 < n →
  let r := random_statevector_test str_float n g seed w in
  r.1 = Raise e →
  e ∈ [IndexError; KeyError].
Proof.
  intros Hn r Hraise.
  destruct (random_statevector_test_run str_float n g seed w)
    as (v & gates & execs & lines & _ & _ & _ & _ & _ & _ & Hend).
  fold r in Hend. rewrite Hraise in Hend. cbv zeta in Hend.
  assert (IndexError ∈ [IndexError; KeyError]) as Hindex
    by apply list_elem_of_here.
  destruct (create_circuit n g _ _ v).1 as [qc'|e'].
  - destruct Hend
      as (_ & _ & [(_ & _ & _ & [= ->])|(_ & _ & [[_ [= ->]]|Hcmp])]);
      try done.
    destruct Hcmp as (svTN & svES & w5 & Hcmp).
    eapply compare_statevectors_raises; [|exact Hcmp]. lia.
  - by destruct Hend as (-> & _ & [= ->] & _).
Qed.

(** X18. For a positive [num_qubits], a run calls [execute] at most
    twice; a run that calls it fewer than two times, because
    [create_circuit] raised or the first result list was empty, raises
    [IndexError] and has printed the banner only. *)
Theorem run_stops_without_results n g seed w :
  0 < n →
  let r := random_statevector_test str_float n g seed w in
  ∃ s execs,
    w_calls r.2
      = w_calls w ++ CallCreateCircuit n g s (length (w_heap w)) :: execs ∧
    (length execs ≤ 2)%nat ∧
    ((length execs < 2)%nat →
     r.1 = Raise IndexError ∧ w_stdout r.2 = w_stdout w ++ [banner n g s]).
Proof.
  intros _ r.
  destruct (random_statevector_test_run str_float n g seed w)
    as (v & gates & execs & lines & _ & _ & _ & _ & Hcalls & Hout & Hend).
  fold r in Hcalls, Hout, Hend. cbv zeta in Hend.
  exists (used_seed seed w), execs. split; [done|].
  destruct (create_circuit _ _ _ _ v).1 as [qc'|e].
  - destruct Hend as (_ & _ & [(_ & -> & -> & ?)|(_ & -> & _)]); simpl;
      [|split; [lia|intros; lia]].
    split; [lia|done].
  - destruct Hend as (-> & _ & ? & -> & -> & _). simpl. split; [lia|done].
Qed.

(** X19. With [num_qubits >= 2], [create_circuit] cannot fail inside a
    run: the run always reaches the simulator, and the circuit of the first
    execution holds exactly [num_gates] gates (none for a negative count)
    followed by the snapshot. *)
Theorem run_with_two_qubits_reaches_the_simulator n g seed w :
  2 ≤ n →
  let r := random_statevector_test str_float n g seed w in
  let qc := length (w_heap w) in
  ∃ s gates execs,
    Z.of_nat (length gates) = Z.max 0 g ∧
    w_calls r.2
      = w_calls w ++ CallCreateCircuit n g s qc
        :: execution qc (measured_circuit n gates) "statevector" :: execs ∧
    w_heap r.2 = w_heap w ++ [measured_circuit n gates].
Proof.
  intros Hn r qc.
  destruct (random_statevector_test_run str_float n g seed w)
    as (v & gates & execs & lines & _ & _ & _ & _ & Hcalls & _ & Hend).
  fold r qc in Hcalls, Hend. cbv zeta in Hend.
  destruct (create_circuit _ _ _ _ v).1 as [qc'|e].
  - destruct Hend as (Hlen & Hheap & [(_ & -> & _)|(_ & -> & _)]);
      by eexists (used_seed seed w), gates, _.
  - destruct Hend as (_ & Hwhy & _).
    rewrite length_qubits_empty_circuit in Hwhy. lia.
Qed.
End run_extras.

(** The theorems at work on runs with the generator [Concrete.lcg] and a
    simulator whose two methods agree. *)

Lemma run_allocates_one_circuit_witness :
  let w := Concrete.world_of 1 [empty_circuit 4] in
  0 < 2 ∧
  let r := random_statevector_test Concrete.str_float 2 3 7 w in
  ∃ gates instrs,
    w_heap r.2 = w_heap w ++ [with_instructions (empty_circuit 2) instrs] ∧
    Forall gate_as_specified gates ∧
    (instrs = gates ∨ instrs = gates ++ [SnapshotInstr "my_sv" "statevector"]) ∧
    (r.1 = Ok tt → instrs = gates ++ [SnapshotInstr "my_sv" "statevector"]).
Proof.
  intros w. split; [lia|].
  apply (run_allocates_one_circuit Concrete.str_float 2 3 7 w). lia.
Defined.

Lemma explicit_seed_reproduces_circuit_witness :
  let w1 := Concrete.world_of 1 [] in
  let w2 := Concrete.world_of 5 [empty_circuit 4] in
  0 < 2 ∧
  7 ≠ 100000000 ∧
  let r1 := random_statevector_test Concrete.str_float 2 3 7 w1 in
  let r2 := random_statevector_test Concrete.str_float 2 3 7 w2 in
  ∃ c,
    w_heap r1.2 = w_heap w1 ++ [c] ∧
    w_heap r2.2 = w_heap w2 ++ [c] ∧
    w_rng r1.2 = w_rng r2.2.
Proof.
  intros w1 w2. split; [lia|]. split; [discriminate|].
  apply (explicit_seed_reproduces_circuit Concrete.str_float 2 3 7 w1 w2);
    [lia|discriminate].
Defined.

Lemma returning_run_output_witness :
  let w := Concrete.world_of 1 [] in
  let r := random_statevector_test Concrete.str_float 2 0 7 w in
  r.1 = Ok tt ∧
  ∃ s diff_lines last_line,
    w_stdout r.2
      = w_stdout w
        ++ banner 2 0 s :: diff_lines ++ [last_line; "-----------"] ∧
    last_line = verdict (length diff_lines) ∧
    (last_line = "test passed" ↔ diff_lines = []) ∧
    Z.of_nat (length diff_lines) ≤ 2 ^ 2.
Proof.
  intros w r.
  assert (r.1 = Ok tt) as H1 by reflexivity.
  split; [assumption|].
  exact (returning_run_output Concrete.str_float 2 0 7 w H1).
Defined.

Lemma run_raises_only_witness :
  let w := Concrete.world_of 1 [] in
  let r := random_statevector_test Concrete.str_float 1 3 1 w in
  0 < 1 ∧
  r.1 = Raise IndexError ∧
  IndexError ∈ [IndexError; KeyError].
Proof.
  intros w r.
  assert (0 < 1) as H0 by lia.
  assert (r.1 = Raise IndexError) as H1 by reflexivity.
  split_and!; try assumption.
  exact (run_raises_only Concrete.str_float 1 3 1 w IndexError H0 H1).
Defined.

Lemma run_stops_without_results_witness :
  let w := Concrete.world_of 1 [] in
  0 < 1 ∧
  let r := random_statevector_test Concrete.str_float 1 3 1 w in
  ∃ s execs,
    w_calls r.2
      = w_calls w ++ CallCreateCircuit 1 3 s (length (w_heap w)) :: execs ∧
    (length execs ≤ 2)%nat ∧
    ((length execs < 2)%nat →
     r.1 = Raise IndexError ∧ w_stdout r.2 = w_stdout w ++ [banner 1 3 s]).
Proof.
  intros w. split; [lia|].
  apply (run_stops_without_results Concrete.str_float 1 3 1 w). lia.
Defined.

Lemma run_with_two_qubits_reaches_the_simulator_witness :
  let w := Concrete.world_of 1 [] in
  2 ≤ 2 ∧
  let r := random_statevector_test Concrete.str_float 2 3 7 w in
  let qc := length (w_heap w) in
  ∃ s gates execs,
    Z.of_nat (length gates) = Z.max 0 3 ∧
    w_calls r.2
      = w_calls w ++ CallCreateCircuit 2 3 s qc
        :: execution qc (measured_circuit 2 gates) "statevector" :: execs ∧
    w_heap r.2 = w_heap w ++ [measured_circuit 2 gates].
Proof.
  intros w. split; [lia|].
  apply (run_with_two_qubits_reaches_the_simulator Concrete.str_float 2 3 7 w).
  lia.
Defined.

Module NoiseFacts.
Import NoiseTests NoiseSpec.
Local Open Scope Q_scope.
Local Coercion inject_Z : Z >-> Q.

Lemma Forall_forallb {A} (f : A → bool) (l : list A) :
  forallb f l = true → Forall (λ a, f a = true) l.
Proof. intros Hf. apply Forall_forall. intros a Ha.
  rewrite forallb_forall in Hf. apply Hf. by apply list_elem_of_In. Qed.

Lemma setup_buildsb_sound p : setup_buildsb p = true → setup_builds p.
Proof.
  unfold setup_buildsb, setup_builds. rewrite !andb_true_iff.
  intros ((((Hsetup & Hcircuit) & Hbackend) & Hnoise) & Hcalls).
  split_and!.
  - by apply Forall_forallb.
  - apply existsb_exists in Hcircuit as ([] & Hin & He); try done.
    apply bool_decide_eq_true in He as ->.
    eexists _, _. by apply list_elem_of_In.
  - by apply bool_decide_eq_true in Hbackend.
  - by apply bool_decide_eq_true in Hnoise.
  - intros c op Hin. rewrite forallb_forall in Hcalls.
    apply list_elem_of_In, Hcalls in Hin. by apply bool_decide_eq_true in Hin.
Qed.

Lemma follows_pipeline_sound t :
  follows_pipeline t = true →
  ∃ p, calls_of t = (Ok tt, pipeline_log p) ∧ setup_builds p.
Proof.
  unfold follows_pipeline.
  destruct (calls_of t) as [[[]|e] log]; [|done].
  destruct (parse_pipeline log) as [p|]; [|done].
  intros [Hlog Hp]%andb_true_iff. exists p.
  apply bool_decide_eq_true in Hlog as ->.
  split; [done|]. by apply setup_buildsb_sound.
Qed.

(** C4. Every test that runs the simulator ends normally and makes its
    calls in the same order: first the calls that build the circuit, the
    backend and the noise model; then [transpile] of that circuit to the
    basis gates of that noise model; then [assemble] of the transpiled
    circuit with the shots of the test; then, after instructions the test
    may append to the qobj, [run] of that qobj with the noise model; then
    [is_completed] and [compare_counts] on the result.  No [run] comes
    before [transpile] and [assemble]. *)
Theorem tests_follow_the_pipeline :
  Forall (λ t, ∃ p, calls_of t.2 = (Ok tt, pipeline_log p) ∧ setup_builds p)
    simulator_tests.
Proof.
  eapply Forall_impl.
  - apply (Forall_forallb (λ t, follows_pipeline t.2)).
    vm_compute. reflexivity.
  - intros t. apply follows_pipeline_sound.
Qed.

Lemma target_sums_to_shots_sound log :
  target_sums_to_shots log = true →
  ∃ shots target,
    shots_of log = [shots] ∧ targets_of log = [target] ∧
    values_sum target == shots.
Proof.
  unfold target_sums_to_shots.
  destruct (shots_of log) as [|shots [|]]; try done.
  destruct (targets_of log) as [|target [|]]; try done.
  intros Hsum%Qeq_bool_iff. by exists shots, target.
Qed.

(** C5. In every test that runs the simulator, the values of the one
    target dictionary add up, in exact arithmetic, to the shots the test
    assembles with. *)
Theorem targets_sum_to_shots :
  Forall (λ t, ∃ shots target,
            shots_of (calls_of t.2).2 = [shots] ∧
            targets_of (calls_of t.2).2 = [target] ∧
            values_sum target == shots)
    simulator_tests.
Proof.
  eapply Forall_impl.
  - apply (Forall_forallb (λ t, target_sums_to_shots (calls_of t.2).2)).
    vm_compute. reflexivity.
  - intros t. apply target_sums_to_shots_sound.
Qed.

Lemma target_is_readout_of_sound ideal log :
  target_is_readout_of ideal log = true →
  ∃ noise qubits shots target,
    noise_calls_of log = [add_readout_error_call noise qubits] ∧
    shots_of log = [shots] ∧
    targets_of log = [target] ∧
    size target = length ideal ∧
    ∀ j, (j < length ideal)%nat →
      ∃ v, target !! hex_key j = Some v ∧
           v == shots * readout_probability ideal noise j.
Proof.
  unfold target_is_readout_of.
  destruct (noise_calls_of log) as [|[noise qubits| | | |] [|]]; try done.
  destruct (shots_of log) as [|shots [|]]; try done.
  destruct (targets_of log) as [|target [|]]; try done.
  intros [Hsize Hall]%andb_true_iff.
  exists noise, qubits, shots, target. split_and!; try done.
  - by apply bool_decide_eq_true in Hsize.
  - intros j Hj. rewrite forallb_forall in Hall.
    specialize (Hall j). rewrite in_seq in Hall.
    destruct (target !! hex_key j) as [v|]; [|by discriminate Hall; lia].
    exists v. split; [done|]. apply Qeq_bool_iff, Hall. lia.
Qed.

(** C6. In [test_readout_error_correlated_2qubit], whose circuit puts a
    Hadamard gate on both qubits, the target has the four keys ['0x0'] to
    ['0x3'], and the value under ['0x' + j] is the shots times the sum over
    [i] of [probs_ideal[i] * probs_noise[i][j]], for the uniform
    [probs_ideal] and the matrix [probs_noise] that the test registers as
    readout error of qubits 0 and 1. *)
Theorem correlated_readout_target :
  let log := (calls_of test_readout_error_correlated_2qubit).2 in
  let qr := QuantumRegister 2 "qr" in
  circuit_ops_of log = [op_h (Whole qr); op_barrier (Whole qr)] ∧
  ∃ noise shots target,
    noise_calls_of log = [add_readout_error_call noise [0%Z; 1%Z]] ∧
    shots_of log = [shots] ∧
    targets_of log = [target] ∧
    size target = 4%nat ∧
    ∀ j, (j < 4)%nat →
      ∃ v, target !! hex_key j = Some v ∧
           v == shots * readout_probability (uniform_distribution 4) noise j.
Proof.
  intros log qr. split; [vm_compute; reflexivity|].
  destruct (target_is_readout_of_sound (uniform_distribution 4) log)
    as (noise & qubits & shots & target & Hnoise & Hshots & Htarget & Hrest).
  { vm_compute. reflexivity. }
  assert (omap (λ c, match c with
                     | add_readout_error_call _ q => Some q
                     | _ => None
                     end) (noise_calls_of log) = [[0%Z; 1%Z]]) as Hq
    by (vm_compute; reflexivity).
  rewrite Hnoise in Hq. injection Hq as ->.
  destruct Hrest as [Hsize Hrest].
  by exists noise, shots, target.
Qed.

Lemma delta_by_determinism_sound log :
  delta_by_determinism log = true →
  ∃ shots delta,
    shots_of log = [shots] ∧ deltas_of log = [delta] ∧
    delta == (if deterministic_noise log then 0 else 0.05 * shots).
Proof.
  unfold delta_by_determinism.
  destruct (shots_of log) as [|shots [|]]; try done.
  destruct (deltas_of log) as [|delta [|]]; try done.
  intros Hd%Qeq_bool_iff. by exists shots, delta.
Qed.

(** C7. A test that runs the simulator compares counts with [delta = 0]
    when every probability of its noise model is 0 or 1, and with
    [delta = 0.05 * shots] otherwise; the tests of the first kind are the
    100% reset test, the two 100% Pauli tests, and the [reset_error(1)] and
    [reset_error(0, 1)] tests. *)
Theorem delta_follows_determinism :
  Forall (λ t, ∃ shots delta,
            shots_of (calls_of t.2).2 = [shots] ∧
            deltas_of (calls_of t.2).2 = [delta] ∧
            delta == (if deterministic_noise (calls_of t.2).2
                      then 0 else 0.05 * shots))
    simulator_tests ∧
  (filter (λ t, deterministic_noise (calls_of t.2).2 = true) simulator_tests).*1
    = ["test_reset_error_all_qubit_100percent";
       "test_all_qubit_pauli_error_gate_100percent";
       "test_specific_qubit_pauli_error_gate_100percent";
       "test_standard_reset0_error_100percent";
       "test_standard_reset1_error_100percent"].
Proof.
  split.
  - eapply Forall_impl.
    + apply (Forall_forallb (λ t, delta_by_determinism (calls_of t.2).2)).
      vm_compute. reflexivity.
    + intros t. apply delta_by_determinism_sound.
  - vm_compute. reflexivity.
Qed.

(** *** The readout probabilities of lines 172-183 *)

Lemma sum_fold_left l a : fold_left Qplus l a == a + foldr Qplus 0 l.
Proof.
  revert a. induction l as [|x l IH]; intros a; cbn [fold_left foldr]; [ring|].
  rewrite IH. ring.
Qed.

Lemma sum_foldr l : sum l == foldr Qplus 0 l.
Proof. unfold sum. rewrite sum_fold_left. ring. Qed.

(** The terms of the comprehension, when every row is long enough. *)
Lemma noisy_terms_ok (j : nat) : ∀ (ideal : list Q) (noise : list (list Q)) s,
  Forall (λ row, (j < length row)%nat) (take (length ideal) noise) →
  py_map (λ '(p, row), n ← item row (Z.of_nat j); mret (p * n))
    (zip ideal noise) s
  = (Ok (zip_with (λ p row, p * nth j row 0) ideal noise), s).
Proof.
  induction ideal as [|p ideal IH]; intros [|row noise] s Hrows; try done.
  cbn [length take] in Hrows. apply Forall_cons in Hrows as [Hrow Hrows].
  cbn [zip_with py_map].
  destruct (lookup_lt_is_Some_2 row j Hrow) as [n Hn].
  assert (item row (Z.of_nat j) s = (Ok n, s)) as Hitem.
  { unfold item. rewrite list_getitem_nonneg by lia.
    by rewrite Nat2Z.id, Hn. }
  erewrite bind_ok.
  2: { cbv beta iota. unfold mbind, py_bind. by rewrite Hitem. }
  erewrite bind_ok by (by apply IH).
  unfold mret, py_ret. do 3 f_equal.
  by rewrite (nth_lookup_Some _ _ _ _ Hn).
Qed.

Lemma noisy_terms_short (j : nat) : ∀ (ideal : list Q) (noise : list (list Q)) s,
  Exists (λ row, (length row ≤ j)%nat)
    (take (length ideal `min` length noise) noise) →
  py_map (λ '(p, row), n ← item row (Z.of_nat j); mret (p * n))
    (zip ideal noise) s
  = (Raise IndexError, s).
Proof.
  induction ideal as [|p ideal IH]; intros [|row noise] s Hrows;
    try by apply Exists_nil in Hrows.
  cbn [length take Nat.min] in Hrows.
  cbn [zip_with py_map].
  destruct (decide (length row ≤ j)%nat) as [Hshort|Hlong].
  - assert (item row (Z.of_nat j) s = (Raise IndexError, s)) as Hitem.
    { unfold item. rewrite list_getitem_nonneg by lia.
      by rewrite Nat2Z.id, lookup_ge_None_2. }
    erewrite bind_raise; [done|]. cbv beta iota.
    unfold mbind, py_bind. by rewrite Hitem.
  - apply Exists_cons in Hrows as [?|Hrows]; [lia|].
    destruct (lookup_lt_is_Some_2 row j ltac:(lia)) as [n Hn].
    assert (item row (Z.of_nat j) s = (Ok n, s)) as Hitem.
    { unfold item. rewrite list_getitem_nonneg by lia.
      by rewrite Nat2Z.id, Hn. }
    erewrite bind_ok; last first.
    { cbv beta iota. unfold mbind, py_bind. by rewrite Hitem. }
    erewrite bind_raise; [done|]. by apply IH.
Qed.

Lemma nth_seq_row (row : list Q) :
  (λ j, nth j row 0) <$> seq 0 (length row) = row.
Proof.
  induction row as [|x row IH]; [done|].
  cbn [length seq fmap list_fmap nth]. f_equal.
  rewrite <- fmap_S_seq, <- list_fmap_compose. exact IH.
Qed.

Lemma foldr_Qplus_add {A} (f g : A → Q) l :
  foldr Qplus 0 ((λ a, f a + g a) <$> l)
  == foldr Qplus 0 (f <$> l) + foldr Qplus 0 (g <$> l).
Proof.
  induction l as [|a l IH]; cbn [fmap list_fmap foldr]; [ring|].
  rewrite IH. ring.
Qed.

Lemma foldr_Qplus_scale {A} (c : Q) (f : A → Q) l :
  foldr Qplus 0 ((λ a, c * f a) <$> l) == c * foldr Qplus 0 (f <$> l).
Proof.
  induction l as [|a l IH]; cbn [fmap list_fmap foldr]; [ring|].
  rewrite IH. ring.
Qed.

Lemma foldr_Qplus_zero {A} (l : list A) :
  foldr Qplus 0 ((λ _, 0) <$> l) == 0.
Proof.
  induction l as [|a l IH]; cbn [fmap list_fmap foldr]; [ring|].
  rewrite IH. ring.
Qed.

Lemma readout_probabilities_sum m : ∀ (ideal : list Q) (noise : list (list Q)),
  length ideal = length noise →
  Forall (λ row, length row = m ∧ foldr Qplus 0 row == 1) noise →
  foldr Qplus 0 ((λ j, readout_probability ideal noise j) <$> seq 0 m)
  == foldr Qplus 0 ideal.
Proof.
  induction ideal as [|p ideal IH]; intros [|row noise] Hlen Hrows; try done.
  - unfold readout_probability. simpl. apply foldr_Qplus_zero.
  - apply Forall_cons in Hrows as [[Hm Hrow] Hrows].
    unfold readout_probability in *. cbn [zip_with foldr].
    rewrite (foldr_Qplus_add (λ j, p * nth j row 0)
               (λ j, foldr Qplus 0 (zip_with (λ p row, p * nth j row 0)
                                      ideal noise))).
    rewrite foldr_Qplus_scale. rewrite IH by (simpl in Hlen; congruence || done).
    subst m. rewrite nth_seq_row, Hrow. ring.
Qed.

(** X20. The expression
    [sum([ideal * noise[j] for ideal, noise in zip(probs_ideal, probs_noise)])]
    evaluates, when each row it reaches has an entry [j], to the
    probability of outcome [j] after the readout error [probs_noise] acts on
    [probs_ideal]; it changes nothing. *)
Theorem noisy_probability_value ideal noise (j : nat) s :
  Forall (λ row, (j < length row)%nat) (take (length ideal) noise) →
  ∃ p, noisy_probability ideal noise (Z.of_nat j) s = (Ok p, s) ∧
       p == readout_probability ideal noise j.
Proof.
  intros Hrows. eexists. split.
  - unfold noisy_probability. by erewrite bind_ok by by apply noisy_terms_ok.
  - apply sum_foldr.
Qed.

(** X21. The same expression raises [IndexError] as soon as one of the
    rows that [zip] pairs with an ideal probability has no entry [j]. *)
Theorem noisy_probability_short_row ideal noise (j : nat) s :
  Exists (λ row, (length row ≤ j)%nat)
    (take (length ideal `min` length noise) noise) →
  noisy_probability ideal noise (Z.of_nat j) s = (Raise IndexError, s).
Proof.
  intros Hrows. unfold noisy_probability.
  erewrite bind_raise; [done|]. by apply noisy_terms_short.
Qed.

(** X22. Readout noise keeps the total probability: when [probs_noise]
    has one row per ideal probability, each row with [m] entries that add up
    to 1, the [m] values the expression computes add up to the sum of
    [probs_ideal] (in exact arithmetic). *)
Theorem noisy_probabilities_sum_to_ideal ideal noise m s :
  length ideal = length noise →
  Forall (λ row, length row = m ∧ foldr Qplus 0 row == 1) noise →
  ∃ ps,
    Forall2 (λ j p, noisy_probability ideal noise (Z.of_nat j) s = (Ok p, s))
      (seq 0 m) ps ∧
    sum ps == sum ideal.
Proof.
  intros Hlen Hrows.
  exists ((λ j, sum (zip_with (λ p row, p * nth j row 0) ideal noise))
          <$> seq 0 m).
  split.
  - apply Forall2_fmap_r, Forall_Forall2_diag, Forall_forall.
    intros j Hj%elem_of_seq.
    unfold noisy_probability. erewrite bind_ok; [done|].
    apply noisy_terms_ok. apply Forall_take.
    eapply Forall_impl; [done|]. intros row [-> _]. lia.
  - rewrite !sum_foldr.
    rewrite <- (readout_probabilities_sum m ideal noise Hlen Hrows).
    clear. induction (seq 0 m) as [|j l IH]; [done|].
    cbn [fmap list_fmap foldr]. rewrite IH.
    unfold readout_probability. by rewrite sum_foldr.
Qed.

(** The three theorems at work on the matrix of
    [test_readout_error_correlated_2qubit]. *)

Lemma noisy_probability_value_witness :
  let ideal := [0.25; 0.25; 0.25; 0.25] in
  let noise := [[0.3; 0; 0; 0.7]; [0; 0.6; 0.4; 0]; [0; 0; 1; 0];
                [0.1; 0; 0; 0.9]] in
  let s := mkSession 0%nat [] in
  Forall (λ row : list Q, (3 < length row)%nat) (take (length ideal) noise) ∧
  ∃ p, noisy_probability ideal noise (Z.of_nat 3) s = (Ok p, s) ∧
       p == readout_probability ideal noise 3.
Proof.
  intros ideal noise s.
  assert (Forall (λ row : list Q, (3 < length row)%nat)
            (take (length ideal) noise)) as H1
    by (repeat constructor).
  split; [assumption|].
  exact (noisy_probability_value ideal noise 3 s H1).
Defined.

Lemma noisy_probability_short_row_witness :
  let ideal := [0.5; 0.5] in
  let noise := [[0.3; 0.7]; [1]] in
  let s := mkSession 0%nat [] in
  Exists (λ row : list Q, (length row ≤ 1)%nat)
    (take (length ideal `min` length noise) noise) ∧
  noisy_probability ideal noise (Z.of_nat 1) s = (Raise IndexError, s).
Proof.
  intros ideal noise s.
  assert (Exists (λ row : list Q, (length row ≤ 1)%nat)
            (take (length ideal `min` length noise) noise)) as H1
    by (apply Exists_cons_tl, Exists_cons_hd; simpl; lia).
  split; [assumption|].
  exact (noisy_probability_short_row ideal noise 1 s H1).
Defined.

Lemma noisy_probabilities_sum_to_ideal_witness :
  let ideal := [0.25; 0.25; 0.25; 0.25] in
  let noise := [[0.3; 0; 0; 0.7]; [0; 0.6; 0.4; 0]; [0; 0; 1; 0];
                [0.1; 0; 0; 0.9]] in
  let s := mkSession 0%nat [] in
  length ideal = length noise ∧
  Forall (λ row, length row = 4%nat ∧ foldr Qplus 0 row == 1) noise ∧
  ∃ ps,
    Forall2 (λ j p, noisy_probability ideal noise (Z.of_nat j) s = (Ok p, s))
      (seq 0 4) ps ∧
    sum ps == sum ideal.
Proof.
  intros ideal noise s.
  assert (length ideal = length noise) as H1 by reflexivity.
  assert (Forall (λ row, length row = 4%nat ∧ foldr Qplus 0 row == 1) noise)
    as H2 by (repeat constructor).
  split_and!; try assumption.
  exact (noisy_probabilities_sum_to_ideal ideal noise 4 s H1 H2).
Defined.
End NoiseFacts.
